(** * lance_ray.datasource: the Lance read-task factory

    A shallow embedding of [src/lance_ray/datasource.py] and the properties
    of its partition planning, block metadata, option merging and retrying
    reader.

    Python objects that the module shares by reference (the scanner-options
    dict) live in an explicit heap of dict objects; generators are values
    whose body only runs when [next] is applied to them; exceptions are the
    [Err] side of a sum. *)

From stdpp Require Import gmap strings list fin_maps.
From Stdlib Require Import ZArith Lia.

Open Scope Z_scope.

(** ** Python values, exceptions and results *)

Inductive PyExc :=
  | ImportError (msg : string)
  | ValueError (msg : string)
  | AssertionError (msg : string)
  | OSError (msg : string).

(** [str(e)] *)
Definition exc_str (e : PyExc) : string :=
  match e with
  | ImportError m | ValueError m | AssertionError m | OSError m => m
  end.

Inductive result (A : Type) :=
  | Ok (a : A)
  | Err (e : PyExc).
Arguments Ok {A} a.
Arguments Err {A} e.

(** ** The Lance side: fragments and datasets *)

Record DataFile := mkDataFile { path : string }.

Record RecordBatch := mkBatch { batch_fragment : Z; batch_num_rows : Z }.

(** [pa.Table.from_batches(batches)] *)
Record Table := from_batches { table_batches : list RecordBatch }.

Definition Schema := list (string * string).

Record LanceFragment := mkFragment {
  fragment_id : Z;                       (* f.metadata.id *)
  count_rows : option string -> Z;       (* f.count_rows(filter=None) *)
  data_files : list DataFile;            (* f.data_files() *)
  fragment_schema : Schema               (* f.schema *)
}.

Inductive PyVal :=
  | VNone
  | VBool (b : bool)
  | VInt (n : Z)
  | VStr (s : string)
  | VStrList (l : list string)
  | VFragments (l : list (option LanceFragment)).

(** A [dict[str, Any]] object's contents. *)
Abbreviation PyDict := (gmap string PyVal).

Record LanceDataset := mkDataset {
  get_fragments : list LanceFragment;
  (* the batches the query engine emits for a scanner built with these
     keyword arguments *)
  scan_batches : PyDict -> list RecordBatch
}.

(** [lance_ds.get_fragment(id)]: the fragment with that id, or [None]. *)
Definition get_fragment (lance_ds : LanceDataset) (id : Z) : option LanceFragment :=
  List.find (fun f => Z.eqb (fragment_id f) id) (get_fragments lance_ds).

(** ** numpy.array_split *)

Fixpoint cumsum_from (acc : nat) (l : list nat) : list nat :=
  match l with
  | [] => []
  | x :: l' => (acc + x)%nat :: cumsum_from (acc + x) l'
  end.

Definition cumsum : list nat -> list nat := cumsum_from 0.

(** [ary[st:end]] for non-negative bounds *)
Definition slice {A} (ary : list A) (st en : nat) : list A :=
  take (en - st) (drop st ary).

(** Modelled from the spec: [numpy.array_split] is not part of the
    repository.  Section 4.2 of the specification describes it as splitting
    into exactly [parallelism] contiguous groups of near-equal size, sizes
    differing by at most one, some groups empty when there are fewer elements
    than groups.  The definition follows numpy's algorithm for a scalar
    section count: give the first [Ntotal mod Nsections] sections one element
    more than the others and cut at the running sums of the section sizes.
    For a count that is not positive the specification defers to the
    primitive; numpy raises [ValueError]. *)
Definition array_split {A} (ary : list A) (indices_or_sections : Z)
  : result (list (list A)) :=
  let Ntotal := length ary in
  if indices_or_sections <=? 0 then
    Err (ValueError "number sections must be larger than 0.")
  else
    let Nsections := Z.to_nat indices_or_sections in
    let Neach_section := (Ntotal / Nsections)%nat in
    let extras := (Ntotal mod Nsections)%nat in
    let section_sizes :=
      [0%nat] ++ repeat (Neach_section + 1)%nat extras
              ++ repeat Neach_section (Nsections - extras) in
    let div_points := cumsum section_sizes in
    Ok (List.map (fun i => slice ary (nth i div_points 0%nat)
                                     (nth (i + 1) div_points 0%nat))
                 (seq 0 Nsections)).

(** ** The interpreter state

    [heap] holds the dict objects, addressed by reference; a Python name
    bound to a dict is a [loc].  [retried_io_errors] is the field of the
    process-wide [DataContext.get_current()].  [faults] scripts the storage
    layer: every storage operation consumes the head of the script and raises
    it when it is an exception (an empty script means no further failure).
    [sleeps] and [scans] log the calls of [time.sleep] and of
    [lance_ds.scanner]. *)

Abbreviation loc := positive.

Record State := mkState {
  heap : gmap loc (gmap string PyVal);
  retried_io_errors : list string;
  faults : list (option PyExc);
  sleeps : list Z;
  scans : list (gmap string PyVal)
}.

Definition set_heap (h : gmap loc (gmap string PyVal)) (σ : State) : State :=
  mkState h (retried_io_errors σ) (faults σ) (sleeps σ) (scans σ).

Definition set_faults (fs : list (option PyExc)) (σ : State) : State :=
  mkState (heap σ) (retried_io_errors σ) fs (sleeps σ) (scans σ).

Definition log_sleep (s : Z) (σ : State) : State :=
  mkState (heap σ) (retried_io_errors σ) (faults σ) (sleeps σ ++ [s]) (scans σ).

Definition log_scan (kw : gmap string PyVal) (σ : State) : State :=
  mkState (heap σ) (retried_io_errors σ) (faults σ) (sleeps σ) (scans σ ++ [kw]).

(** Computations that read and write the state and may raise. *)
Definition M (A : Type) : Type := State -> result A * State.

Definition ret {A} (a : A) : M A := fun σ => (Ok a, σ).

Definition raise {A} (e : PyExc) : M A := fun σ => (Err e, σ).

Definition bind {A B} (m : M A) (k : A -> M B) : M B :=
  fun σ => match m σ with
           | (Ok a, σ') => k a σ'
           | (Err e, σ') => (Err e, σ')
           end.

Notation "x <- m ;; k" := (bind m (fun x => k))
  (at level 100, m at next level, right associativity).
Notation "m ;;; k" := (bind m (fun _ => k))
  (at level 100, right associativity).

(** The contents of the dict object at [l] (a dangling reference, which
    Python cannot produce, reads as the empty dict). *)
Definition deref (l : loc) (σ : State) : gmap string PyVal :=
  default ∅ (heap σ !! l).

(** [{}]: a fresh dict object *)
Definition new_dict : M loc :=
  fun σ => let l := fresh (dom (heap σ)) in
           (Ok l, set_heap (<[l := ∅]> (heap σ)) σ).

(** [d[k] = v] on the dict object at [l] *)
Definition dict_setitem (l : loc) (k : string) (v : PyVal) : M unit :=
  fun σ => (Ok tt, set_heap (<[l := <[k := v]> (deref l σ)]> (heap σ)) σ).

(** [bool(d)] of a dict object: false exactly when it is empty *)
Definition dict_truthy (l : loc) (σ : State) : bool :=
  negb (Nat.eqb (size (deref l σ)) 0).

(** A call into the storage layer: consumes one entry of the fault script. *)
Definition storage_call : M unit :=
  fun σ => match faults σ with
           | [] => (Ok tt, σ)
           | None :: fs => (Ok tt, set_faults fs σ)
           | Some e :: fs => (Err e, set_faults fs σ)
           end.

(** ** ray.data: block metadata, read tasks, retry helper *)

Inductive BlockExecStats := mkExecStats.

Record BlockMetadata := mkBlockMetadata {
  num_rows : option Z;
  size_bytes : option Z;
  schema : option Schema;
  input_files : option (list string);
  exec_stats : option BlockExecStats
}.

Record RetryParams := mkRetryParams {
  description : string;
  match_ : list string;
  max_attempts : Z;
  max_backoff_s : Z
}.

(** [pattern in s] on strings *)
Fixpoint str_in (pattern s : string) : bool :=
  String.prefix pattern s ||
  match s with
  | EmptyString => false
  | String _ s' => str_in pattern s'
  end.

Definition is_retryable (match_ : list string) (e : PyExc) : bool :=
  existsb (fun pattern => str_in pattern (exc_str e)) match_.

(** The loop of [call_with_retry] from attempt [i] on, with [retries_left]
    further attempts allowed after this one ([i + 1 < max_attempts] exactly
    when [retries_left] is not zero).  The slept time is the backoff ceiling
    [min(2 ** (i + 1), max_backoff_s)] scaled by a random factor below one;
    the log keeps the ceiling. *)
Fixpoint retry_loop {A} (f : M A) (match_ : list string) (max_backoff_s : Z)
    (i : nat) (retries_left : nat) : M A :=
  fun σ =>
    match f σ with
    | (Ok a, σ') => (Ok a, σ')
    | (Err e, σ') =>
        match retries_left with
        | S r =>
            if is_retryable match_ e then
              let backoff := Z.min (2 ^ (Z.of_nat i + 1)) max_backoff_s in
              retry_loop f match_ max_backoff_s (S i) r (log_sleep backoff σ')
            else (Err e, σ')
        | O => (Err e, σ')
        end
    end.

(** Modelled from the spec: [ray.data._internal.util.call_with_retry] is the
    host engine's helper, not part of the repository.  Section 4.3 of the
    specification: an error of the attempt whose message contains one of the
    configured substrings makes the attempt run again from scratch, up to the
    maximum attempt count, with exponentially increasing backoff capped at the
    ceiling; any other error propagates at once; the last error surfaces when
    the attempts are exhausted. *)
Definition call_with_retry {A} (f : M A) (p : RetryParams) : M A :=
  match Z.to_nat (max_attempts p) with
  | O => raise (AssertionError "`max_attempts` must be positive.")
  | S r => retry_loop f (match_ p) (max_backoff_s p) 0 r
  end.

(** The closure [lambda: _read_fragments_with_retry(fragment_ids, lance_ds,
    scanner_options, retry_params)] built by [create_read_task]: the values of
    the four parameters it captures. *)
Record ReadFn := mkReadFn {
  cl_fragment_ids : list Z;
  cl_lance_ds : LanceDataset;
  cl_scanner_options : loc;
  cl_retry_params : RetryParams
}.

Record ReadTask := mkReadTask {
  read_fn : ReadFn;
  metadata : BlockMetadata
}.

(** ** class LanceDatasource *)

(** What the constructor finds outside the interpreter: whether the [lance]
    module can be imported, and what [lance.dataset] answers. *)
Record Env := mkEnv {
  lance_installed : bool;
  lance_dataset : string -> option (gmap string string) -> result LanceDataset
}.

Record LanceDatasource := mkLanceDatasource {
  uri : string;
  scanner_options : loc;
  storage_options : option (gmap string string);
  lance_ds : LanceDataset;
  _retry_params : RetryParams
}.

Definition READ_FRAGMENTS_ERRORS_TO_RETRY : list string := ["LanceError(IO)"].
Definition READ_FRAGMENTS_MAX_ATTEMPTS : Z := 10.
Definition READ_FRAGMENTS_RETRY_MAX_BACKOFF_SECONDS : Z := 32.

(** [_check_import(self, module="lance", package="pylance")] *)
Definition _check_import (env : Env) : M unit :=
  if lance_installed env then ret tt
  else raise (ImportError
    "`LanceDatasource` depends on 'pylance', but 'lance' couldn't be imported.").

(** [scanner_options or {}]: the caller's object when it is given and truthy,
    a fresh empty dict otherwise. *)
Definition scanner_options_or_new (scanner_options : option loc) : M loc :=
  fun σ =>
    match scanner_options with
    | Some l => if dict_truthy l σ then ret l σ else new_dict σ
    | None => new_dict σ
    end.

Definition __init__ (env : Env) (uri : string)
    (columns : option (list string)) (filter : option string)
    (storage_options : option (gmap string string))
    (scanner_options : option loc) : M LanceDatasource :=
  _check_import env ;;;
  self_scanner_options <- scanner_options_or_new scanner_options ;;
  match columns with
  | Some c => dict_setitem self_scanner_options "columns" (VStrList c)
  | None => ret tt
  end ;;;
  match filter with
  | Some f => dict_setitem self_scanner_options "filter" (VStr f)
  | None => ret tt
  end ;;;
  self_lance_ds <- (fun σ => (lance_dataset env uri storage_options, σ)) ;;
  ctx_retried_io_errors <- (fun σ => (Ok (retried_io_errors σ), σ)) ;;
  let match_ := [] ++ READ_FRAGMENTS_ERRORS_TO_RETRY ++ ctx_retried_io_errors in
  ret {| uri := uri;
         scanner_options := self_scanner_options;
         storage_options := storage_options;
         lance_ds := self_lance_ds;
         _retry_params :=
           {| description := "read lance fragments";
              match_ := match_;
              max_attempts := READ_FRAGMENTS_MAX_ATTEMPTS;
              max_backoff_s := READ_FRAGMENTS_RETRY_MAX_BACKOFF_SECONDS |} |}.

(** [sum(...)]: left to right from 0 *)
Definition py_sum (l : list Z) : Z := foldl Z.add 0 l.

(** One iteration of the loop of [get_read_tasks]: [None] is the [continue]
    of an empty group. *)
Definition read_task_of_group (self : LanceDatasource)
    (fragments : list LanceFragment) : option ReadTask :=
  match fragments with
  | [] => None
  | fragments_0 :: _ =>
      let fragment_ids := List.map fragment_id fragments in
      let num_rows := py_sum (List.map (fun f => count_rows f None) fragments) in
      let input_files :=
        List.flat_map (fun f => List.map path (data_files f)) fragments in
      let metadata :=
        {| num_rows := Some num_rows;
           schema := Some (fragment_schema fragments_0);
           input_files := Some input_files;
           size_bytes := None;
           exec_stats := None |} in
      Some {| read_fn :=
                {| cl_fragment_ids := fragment_ids;
                   cl_lance_ds := lance_ds self;
                   cl_scanner_options := scanner_options self;
                   cl_retry_params := _retry_params self |};
              metadata := metadata |}
  end.

Definition get_read_tasks (self : LanceDatasource) (parallelism : Z)
  : result (list ReadTask) :=
  match array_split (get_fragments (lance_ds self)) parallelism with
  | Err e => Err e
  | Ok groups =>
      Ok (foldl (fun read_tasks fragments =>
                   match read_task_of_group self fragments with
                   | None => read_tasks
                   | Some read_task => read_tasks ++ [read_task]
                   end) [] groups)
  end.

Definition estimate_inmemory_data_size (self : LanceDatasource) : option Z :=
  None.

(** ** Generators

    [_read_fragments] contains [yield], so calling it runs none of its body:
    the call returns a generator object holding the arguments.  The body runs
    when the consumer asks for the next item. *)

Inductive Generator :=
  | GenCreated (fragment_ids : list Z) (lance_ds : LanceDataset)
               (scanner_options : loc)
  | GenSuspended (reader : list RecordBatch)
  | GenClosed.

Inductive NextResult :=
  | Yielded (t : Table)
  | StopIteration
  | Raised (e : PyExc).

(** [[lance_ds.get_fragment(id) for id in fragment_ids]] *)
Fixpoint resolve_fragments (lance_ds : LanceDataset) (fragment_ids : list Z)
  : M (list (option LanceFragment)) :=
  match fragment_ids with
  | [] => ret []
  | id :: ids =>
      storage_call ;;;
      fs <- resolve_fragments lance_ds ids ;;
      ret (get_fragment lance_ds id :: fs)
  end.

(** The body of [_read_fragments] up to the [for] loop: resolve the
    fragments (one storage call each), store them in the options dict, build
    the scanner from the dict's entries and take its reader (one storage
    call). *)
Definition open_reader (fragment_ids : list Z) (lance_ds : LanceDataset)
    (scanner_options : loc) : M (list RecordBatch) :=
  fragments <- resolve_fragments lance_ds fragment_ids ;;
  dict_setitem scanner_options "fragments" (VFragments fragments) ;;;
  kwargs <- (fun σ => (Ok (deref scanner_options σ), σ)) ;;
  storage_call ;;;
  (fun σ => (Ok tt, log_scan kwargs σ)) ;;;
  ret (scan_batches lance_ds kwargs).

(** One turn of [for batch in reader: yield pa.Table.from_batches([batch])] *)
Definition reader_step (reader : list RecordBatch) (σ : State)
  : NextResult * Generator * State :=
  match storage_call σ with
  | (Err e, σ') => (Raised e, GenClosed, σ')
  | (Ok _, σ') =>
      match reader with
      | [] => (StopIteration, GenClosed, σ')
      | batch :: reader' =>
          (Yielded (from_batches [batch]), GenSuspended reader', σ')
      end
  end.

(** [next(gen)] *)
Definition gen_next (gen : Generator) (σ : State)
  : NextResult * Generator * State :=
  match gen with
  | GenCreated fragment_ids lance_ds scanner_options =>
      match open_reader fragment_ids lance_ds scanner_options σ with
      | (Err e, σ') => (Raised e, GenClosed, σ')
      | (Ok reader, σ') => reader_step reader σ'
      end
  | GenSuspended reader => reader_step reader σ
  | GenClosed => (StopIteration, GenClosed, σ)
  end.

(** [list(reader-loop)]: the consumer draining the [for] loop of a
    generator that is already reading. *)
Fixpoint drain_reader (reader : list RecordBatch) : M (list Table) :=
  storage_call ;;;
  match reader with
  | [] => ret []
  | batch :: reader' =>
      ts <- drain_reader reader' ;;
      ret (from_batches [batch] :: ts)
  end.

(** [list(gen)]: the consumer calling [next] until the generator stops or
    raises (see [drain_gen_next] for the unfolding in terms of [gen_next]). *)
Definition drain_gen (gen : Generator) : M (list Table) :=
  match gen with
  | GenCreated fragment_ids lance_ds scanner_options =>
      reader <- open_reader fragment_ids lance_ds scanner_options ;;
      drain_reader reader
  | GenSuspended reader => drain_reader reader
  | GenClosed => ret []
  end.

Definition _read_fragments (fragment_ids : list Z) (lance_ds : LanceDataset)
    (scanner_options : loc) : M Generator :=
  ret (GenCreated fragment_ids lance_ds scanner_options).

Definition _read_fragments_with_retry (fragment_ids : list Z)
    (lance_ds : LanceDataset) (scanner_options : loc)
    (retry_params : RetryParams) : M Generator :=
  call_with_retry
    (_read_fragments fragment_ids lance_ds scanner_options)
    retry_params.

(** Calling a read task's [read_fn]. *)
Definition call_read_fn (f : ReadFn) : M Generator :=
  _read_fragments_with_retry (cl_fragment_ids f) (cl_lance_ds f)
    (cl_scanner_options f) (cl_retry_params f).

(** The engine running a read unit: call [read_fn], then consume the
    generator it returned. *)
Definition run_read_task (t : ReadTask) : M (list Table) :=
  gen <- call_read_fn (read_fn t) ;;
  drain_gen gen.

(** ** The retrying reader as the specification words it

    Section 4.3: the entire batch-production attempt, opening the fragments,
    building the scanner and retrieving every batch, is the unit of retry. *)
Definition spec_read_attempt (fragment_ids : list Z) (lance_ds : LanceDataset)
    (scanner_options : loc) : M (list Table) :=
  gen <- _read_fragments fragment_ids lance_ds scanner_options ;;
  drain_gen gen.

Definition spec_read_with_retry (fragment_ids : list Z)
    (lance_ds : LanceDataset) (scanner_options : loc)
    (retry_params : RetryParams) : M (list Table) :=
  call_with_retry
    (spec_read_attempt fragment_ids lance_ds scanner_options)
    retry_params.

(** ** Concrete inputs used by the examples *)

Definition ex_schema : Schema := [("id", "int64"); ("name", "string")].

Definition ex_fragment (id rows : Z) (file : string) : LanceFragment :=
  {| fragment_id := id;
     count_rows := fun filter =>
       match filter with None => rows | Some _ => 0 end;
     data_files := [mkDataFile file];
     fragment_schema := ex_schema |}.

(** A query engine that emits one batch per selected fragment. *)
Definition ex_scan (kwargs : gmap string PyVal) : list RecordBatch :=
  match kwargs !! "fragments" with
  | Some (VFragments fs) =>
      List.flat_map (fun o => match o with
                              | Some f => [mkBatch (fragment_id f) (count_rows f None)]
                              | None => []
                              end) fs
  | _ => []
  end.

Definition ex_dataset : LanceDataset :=
  {| get_fragments := [ex_fragment 0 100 "data/0.lance";
                       ex_fragment 1 100 "data/1.lance";
                       ex_fragment 2 50 "data/2.lance"];
     scan_batches := ex_scan |}.

Definition ex_env : Env :=
  {| lance_installed := true;
     lance_dataset := fun _ _ => Ok ex_dataset |}.

Definition ex_state : State :=
  {| heap := ∅;
     retried_io_errors := ["AWS Error INTERNAL_FAILURE"];
     faults := [];
     sleeps := [];
     scans := [] |}.

(** The factory that [__init__] builds in [ex_env] from [ex_state] with
    [columns=["id"]], and the state it leaves (see [ex_init]). *)
Definition ex_self : LanceDatasource :=
  {| uri := "s3://bucket/ds.lance";
     scanner_options := 1%positive;
     storage_options := None;
     lance_ds := ex_dataset;
     _retry_params :=
       {| description := "read lance fragments";
          match_ := ["LanceError(IO)"; "AWS Error INTERNAL_FAILURE"];
          max_attempts := 10;
          max_backoff_s := 32 |} |}.

Definition ex_state1 : State :=
  set_heap {[ 1%positive := {[ "columns" := VStrList ["id"] ]} ]} ex_state.

(** The two read units [get_read_tasks ex_self 2] returns
    (see [ex_read_tasks]). *)
Definition ex_task0 : ReadTask :=
  {| read_fn :=
       {| cl_fragment_ids := [0; 1];
          cl_lance_ds := ex_dataset;
          cl_scanner_options := 1%positive;
          cl_retry_params := _retry_params ex_self |};
     metadata :=
       {| num_rows := Some 200;
          size_bytes := None;
          schema := Some ex_schema;
          input_files := Some ["data/0.lance"; "data/1.lance"];
          exec_stats := None |} |}.

Definition ex_task1 : ReadTask :=
  {| read_fn :=
       {| cl_fragment_ids := [2];
          cl_lance_ds := ex_dataset;
          cl_scanner_options := 1%positive;
          cl_retry_params := _retry_params ex_self |};
     metadata :=
       {| num_rows := Some 50;
          size_bytes := None;
          schema := Some ex_schema;
          input_files := Some ["data/2.lance"];
          exec_stats := None |} |}.

(** A transient storage failure, as the Lance bindings report it. *)
Definition ex_io_error : PyExc :=
  OSError "LanceError(IO): connection reset by peer".

(** A caller that holds an empty options dict at address 5. *)
Definition ex_state_caller : State :=
  set_heap {[ 5%positive := ∅ ]} ex_state.

(** The two optional [d[k] = v] statements of [__init__], on a dict's
    contents: [columns] and [filter], when given, overwrite the entries of
    the same name. *)
Definition merge_options (columns : option (list string))
    (filter : option string) (d : gmap string PyVal) : gmap string PyVal :=
  let d1 := match columns with
            | Some c => <["columns" := VStrList c]> d
            | None => d
            end in
  match filter with
  | Some f => <["filter" := VStr f]> d1
  | None => d1
  end.

(** The state [__init__] leaves once it has written [columns] and [filter]
    into the dict object at [l]. *)
Definition store_options (l : loc) (columns : option (list string))
    (filter : option string) (σ : State) : State :=
  match columns, filter with
  | None, None => σ
  | _, _ =>
      set_heap (<[l := merge_options columns filter (deref l σ)]> (heap σ)) σ
  end.

(** The keyword arguments of the scan of one group: the options dict with
    the group's resolved fragments under ["fragments"]. *)
Definition scan_kwargs (lance_ds : LanceDataset) (fragment_ids : list Z)
    (options : gmap string PyVal) : gmap string PyVal :=
  <["fragments" := VFragments (List.map (get_fragment lance_ds) fragment_ids)]>
    options.

(** ** Cutting a list by a list of sizes

    [chunks szs l] takes the first size's worth of elements, then the next,
    and so on: what the slices of [array_split] amount to. *)
Fixpoint chunks {A} (szs : list nat) (l : list A) : list (list A) :=
  match szs with
  | [] => []
  | n :: szs' => take n l :: chunks szs' (drop n l)
  end.

(** The section sizes [array_split] computes for [n] elements in [k]
    sections. *)
Definition section_sizes (n k : nat) : list nat :=
  repeat (n / k + 1)%nat (n mod k) ++ repeat (n / k)%nat (k - n mod k).

(** [len(fragments) <= 0] negated: the groups the loop keeps *)
Definition nonempty {A} (g : list A) : bool := negb (Nat.eqb (length g) 0).

Definition task_ids (t : ReadTask) : list Z := cl_fragment_ids (read_fn t).

(** * Properties *)

Example array_split_10_4 :
  array_split [0;1;2;3;4;5;6;7;8;9] 4 = Ok [[0;1;2];[3;4;5];[6;7];[8;9]].
Proof. reflexivity. Qed.

Example array_split_2_4 :
  array_split [7;8] 4 = Ok [[7];[8];[];[]].
Proof. reflexivity. Qed.

Example str_in_examples :
  str_in "LanceError(IO)" "LanceError(IO): connection reset" = true /\
  str_in "LanceError(IO)" "LanceError(Schema): bad" = false /\
  str_in "" "x" = true.
Proof. repeat split; reflexivity. Qed.


(** ** [array_split] *)

Section Chunks.
Context {A : Type}.
Implicit Types (l : list A) (szs : list nat).

Lemma map_slices szs : forall acc l,
  List.map (fun i => slice l (nth i (acc :: cumsum_from acc szs) 0%nat)
                             (nth (i + 1) (acc :: cumsum_from acc szs) 0%nat))
           (seq 0 (length szs))
  = chunks szs (drop acc l).
Proof.
  induction szs as [|n szs IH]; intros acc l; [reflexivity|].
  cbn [length seq List.map chunks cumsum_from].
  f_equal.
  - unfold slice. cbn. f_equal. lia.
  - rewrite <- seq_shift, List.map_map, drop_drop.
    rewrite <- (IH (acc + n)%nat l).
    apply List.map_ext. intros i. reflexivity.
Qed.

Lemma concat_chunks szs : forall l,
  concat (chunks szs l) = take (sum_list szs) l.
Proof.
  induction szs as [|n szs IH]; intros l; cbn.
  - reflexivity.
  - rewrite IH. apply take_take_drop.
Qed.

Lemma length_chunks szs l : length (chunks szs l) = length szs.
Proof. revert l. induction szs; intros; cbn; auto. Qed.

Lemma chunks_sizes szs : forall l,
  (sum_list szs <= length l)%nat ->
  Forall2 (fun c n => length c = n) (chunks szs l) szs.
Proof.
  induction szs as [|n szs IH]; intros l Hl; cbn in *; constructor.
  - rewrite length_take. lia.
  - apply IH. rewrite length_drop. lia.
Qed.
End Chunks.

Lemma sum_list_app (l k : list nat) :
  sum_list (l ++ k) = (sum_list l + sum_list k)%nat.
Proof. induction l; cbn; lia. Qed.

Lemma sum_list_repeat (x n : nat) : sum_list (repeat x n) = (n * x)%nat.
Proof. induction n; cbn; lia. Qed.

Lemma section_sizes_sum n k : (0 < k)%nat -> sum_list (section_sizes n k) = n.
Proof.
  intros Hk. unfold section_sizes.
  rewrite sum_list_app, !sum_list_repeat.
  pose proof (Nat.div_mod_eq n k) as Hdm.
  pose proof (Nat.mod_upper_bound n k ltac:(lia)) as Hlt.
  nia.
Qed.

Lemma section_sizes_length n k : (0 < k)%nat -> length (section_sizes n k) = k.
Proof.
  intros Hk. unfold section_sizes.
  rewrite length_app, !repeat_length.
  pose proof (Nat.mod_upper_bound n k ltac:(lia)). lia.
Qed.

Lemma section_sizes_near_equal n k :
  Forall (fun s => s = (n / k)%nat \/ s = (n / k + 1)%nat) (section_sizes n k).
Proof.
  unfold section_sizes. apply Forall_app. split.
  - apply Forall_forall. intros s Hs%list_elem_of_In%repeat_spec. auto.
  - apply Forall_forall. intros s Hs%list_elem_of_In%repeat_spec. auto.
Qed.

Lemma array_split_chunks {A} (ary : list A) (P : Z) :
  0 < P ->
  array_split ary P
  = Ok (chunks (section_sizes (length ary) (Z.to_nat P)) ary).
Proof.
  intros HP. unfold array_split.
  destruct (Z.leb_spec P 0) as [|_]; [lia|].
  f_equal.
  set (k := Z.to_nat P).
  assert (Hk : (0 < k)%nat) by (subst k; lia).
  change ([0%nat] ++ repeat (length ary / k + 1)%nat (length ary mod k)
            ++ repeat (length ary / k)%nat (k - length ary mod k))
    with (0%nat :: section_sizes (length ary) k).
  change (cumsum (0%nat :: section_sizes (length ary) k))
    with (0%nat :: cumsum_from 0 (section_sizes (length ary) k)).
  pose proof (map_slices (section_sizes (length ary) k) 0%nat ary) as Hm.
  rewrite (section_sizes_length (length ary) k Hk) in Hm.
  exact Hm.
Qed.

Lemma array_split_error {A} (ary : list A) (P : Z) :
  P <= 0 ->
  array_split ary P = Err (ValueError "number sections must be larger than 0.").
Proof.
  intros HP. unfold array_split.
  destruct (Z.leb_spec P 0); [reflexivity|lia].
Qed.

(** What [array_split] returns for a positive count: [P] contiguous groups
    that concatenate to the input, each of the two near-equal sizes. *)
Lemma array_split_spec {A} (ary : list A) (P : Z) :
  0 < P ->
  exists groups,
    array_split ary P = Ok groups /\
    length groups = Z.to_nat P /\
    concat groups = ary /\
    Forall (fun g => length g = (length ary / Z.to_nat P)%nat \/
                     length g = (length ary / Z.to_nat P + 1)%nat) groups.
Proof.
  intros HP. eexists. split; [apply array_split_chunks; exact HP|].
  assert (Hk : (0 < Z.to_nat P)%nat) by lia.
  split; [|split].
  - rewrite length_chunks. apply section_sizes_length, Hk.
  - rewrite concat_chunks, section_sizes_sum by exact Hk.
    apply firstn_all.
  - pose proof (chunks_sizes (section_sizes (length ary) (Z.to_nat P)) ary) as H.
    rewrite section_sizes_sum in H by exact Hk.
    specialize (H (le_n _)).
    pose proof (section_sizes_near_equal (length ary) (Z.to_nat P)) as Hs.
    revert H Hs. generalize (section_sizes (length ary) (Z.to_nat P)).
    generalize (chunks (section_sizes (length ary) (Z.to_nat P)) ary).
    intros cs0 szs0 H. induction H as [|c n cs szs Hc H IH]; intros Hs.
    + constructor.
    + apply Forall_cons in Hs as [Hn Hs]. constructor; [lia|auto].
Qed.

(** ** [get_read_tasks] *)

Lemma get_read_tasks_loop self groups : forall read_tasks,
  foldl (fun read_tasks fragments =>
           match read_task_of_group self fragments with
           | None => read_tasks
           | Some read_task => read_tasks ++ [read_task]
           end) read_tasks groups
  = read_tasks ++ omap (read_task_of_group self) groups.
Proof.
  induction groups as [|g groups IH]; intros acc; cbn.
  - symmetry. apply app_nil_r.
  - rewrite IH. destruct (read_task_of_group self g); cbn; [|reflexivity].
    rewrite <- app_assoc. reflexivity.
Qed.

Lemma get_read_tasks_groups self P groups :
  array_split (get_fragments (lance_ds self)) P = Ok groups ->
  get_read_tasks self P = Ok (omap (read_task_of_group self) groups).
Proof.
  intros H. unfold get_read_tasks. rewrite H, get_read_tasks_loop.
  reflexivity.
Qed.

Lemma get_read_tasks_inv self P tasks :
  get_read_tasks self P = Ok tasks ->
  exists groups,
    array_split (get_fragments (lance_ds self)) P = Ok groups /\
    tasks = omap (read_task_of_group self) groups.
Proof.
  unfold get_read_tasks.
  destruct (array_split _ P) as [groups|e] eqn:E; [|discriminate].
  rewrite get_read_tasks_loop. intros [= <-]. eauto.
Qed.

Lemma read_task_of_group_Some self g t :
  read_task_of_group self g = Some t ->
  g <> [] /\
  task_ids t = List.map fragment_id g /\
  cl_lance_ds (read_fn t) = lance_ds self /\
  cl_scanner_options (read_fn t) = scanner_options self /\
  cl_retry_params (read_fn t) = _retry_params self.
Proof.
  destruct g as [|f g]; [discriminate|]. intros [= <-]. cbn. auto.
Qed.

Lemma elem_of_tasks self (groups : list (list LanceFragment)) t :
  t ∈ omap (read_task_of_group self) groups ->
  exists g, g ∈ groups /\ read_task_of_group self g = Some t.
Proof. intros (g & Hg & Ht)%list_elem_of_omap. eauto. Qed.

Lemma tasks_ids_concat self groups :
  concat (List.map task_ids (omap (read_task_of_group self) groups))
  = List.map fragment_id (concat groups).
Proof.
  induction groups as [|g groups IH]; [reflexivity|].
  cbn [concat]. rewrite List.map_app, <- IH.
  destruct g as [|f g]; reflexivity.
Qed.

Lemma tasks_length_groups self groups :
  (length (omap (read_task_of_group self) groups) <= length groups)%nat.
Proof.
  induction groups as [|g groups IH]; cbn; [lia|].
  destruct (read_task_of_group self g); cbn; lia.
Qed.

Lemma tasks_length_concat self groups :
  (length (omap (read_task_of_group self) groups) <= length (concat groups))%nat.
Proof.
  induction groups as [|g groups IH]; cbn; [lia|].
  rewrite length_app. destruct g; cbn; lia.
Qed.

Lemma py_sum_foldr (l : list Z) : py_sum l = foldr Z.add 0 l.
Proof.
  unfold py_sum.
  assert (H : forall a, foldl Z.add a l = a + foldr Z.add 0 l).
  { induction l as [|x l IH]; intros a; cbn; [lia|]. rewrite IH. lia. }
  rewrite H. lia.
Qed.

Example ex_init :
  __init__ ex_env "s3://bucket/ds.lance" (Some ["id"]) None None None ex_state
  = (Ok ex_self, ex_state1).
Proof. reflexivity. Qed.

Example ex_read_tasks : get_read_tasks ex_self 2 = Ok [ex_task0; ex_task1].
Proof. reflexivity. Qed.

Example ex_get_read_tasks :
  List.map (fun t => (task_ids t, num_rows (metadata t)))
    (match get_read_tasks ex_self 2 with Ok ts => ts | Err _ => [] end)
  = [([0; 1], Some 200); ([2], Some 50)].
Proof. reflexivity. Qed.

(** C3: for every dataset with F fragments and every parallelism P >= 1,
    [get_read_tasks] returns between 0 and min(F, P) read units, none of
    them for an empty group, and the fragment identifiers of the returned
    groups, taken in order, are exactly the dataset's fragment identifiers:
    nothing is omitted and nothing occurs twice. *)
Theorem C3_partition_complete (self : LanceDatasource) (P : Z) :
  1 <= P ->
  exists tasks,
    get_read_tasks self P = Ok tasks /\
    (0 <= length tasks
       <= Nat.min (length (get_fragments (lance_ds self))) (Z.to_nat P))%nat /\
    Forall (fun t => task_ids t <> []) tasks /\
    concat (List.map task_ids tasks)
      = List.map fragment_id (get_fragments (lance_ds self)) /\
    (NoDup (List.map fragment_id (get_fragments (lance_ds self))) ->
     NoDup (concat (List.map task_ids tasks))).
Proof.
  intros HP.
  destruct (array_split_spec (get_fragments (lance_ds self)) P)
    as (groups & Hsplit & Hlen & Hcat & _); [lia|].
  exists (omap (read_task_of_group self) groups).
  split; [apply get_read_tasks_groups, Hsplit|].
  pose proof (tasks_ids_concat self groups) as Hids. rewrite Hcat in Hids.
  repeat split.
  - lia.
  - pose proof (tasks_length_groups self groups).
    pose proof (tasks_length_concat self groups) as Hc. rewrite Hcat in Hc.
    lia.
  - apply Forall_forall. intros t (g & _ & Ht)%elem_of_tasks.
    apply read_task_of_group_Some in Ht as (Hg & Hid & _).
    rewrite Hid. destruct g; [congruence|discriminate].
  - exact Hids.
  - rewrite Hids. auto.
Qed.

Lemma C3_partition_complete_witness :
  1 <= 2 /\
  exists tasks,
    get_read_tasks ex_self 2 = Ok tasks /\
    (0 <= length tasks
       <= Nat.min (length (get_fragments (lance_ds ex_self))) (Z.to_nat 2))%nat /\
    Forall (fun t => task_ids t <> []) tasks /\
    concat (List.map task_ids tasks)
      = List.map fragment_id (get_fragments (lance_ds ex_self)) /\
    (NoDup (List.map fragment_id (get_fragments (lance_ds ex_self))) ->
     NoDup (concat (List.map task_ids tasks))).
Proof. split; [lia|]. apply (C3_partition_complete ex_self 2). lia. Defined.

(** C4: for every fragment count and every parallelism P >= 1, each group
    behind a returned read unit is a contiguous run of the dataset's fragment
    list, and the sizes of any two returned groups differ by at most one. *)
Theorem C4_groups_near_equal (self : LanceDatasource) (P : Z) :
  1 <= P ->
  exists tasks,
    get_read_tasks self P = Ok tasks /\
    (forall t1 t2, t1 ∈ tasks -> t2 ∈ tasks ->
       (length (task_ids t1) <= length (task_ids t2) + 1)%nat) /\
    (forall t, t ∈ tasks ->
       exists before after,
         List.map fragment_id (get_fragments (lance_ds self))
         = before ++ task_ids t ++ after).
Proof.
  intros HP.
  destruct (array_split_spec (get_fragments (lance_ds self)) P)
    as (groups & Hsplit & Hlen & Hcat & Hsz); [lia|].
  exists (omap (read_task_of_group self) groups).
  split; [apply get_read_tasks_groups, Hsplit|].
  split.
  - assert (Hq : forall t, t ∈ omap (read_task_of_group self) groups ->
        length (task_ids t)
          = (length (get_fragments (lance_ds self)) / Z.to_nat P)%nat \/
        length (task_ids t)
          = (length (get_fragments (lance_ds self)) / Z.to_nat P + 1)%nat).
    { intros t (g & Hg & Ht)%elem_of_tasks.
      apply read_task_of_group_Some in Ht as (_ & Hid & _).
      rewrite Hid, length_map.
      rewrite Forall_forall in Hsz. apply Hsz, Hg. }
    intros t1 t2 H1%Hq H2%Hq. lia.
  - intros t (l1 & l2 & Ht)%list_elem_of_split.
    pose proof (tasks_ids_concat self groups) as Hids.
    rewrite Hcat, Ht in Hids.
    rewrite List.map_app, concat_app in Hids. cbn in Hids.
    eexists _, _. symmetry. exact Hids.
Qed.

Lemma C4_groups_near_equal_witness :
  1 <= 2 /\
  exists tasks,
    get_read_tasks ex_self 2 = Ok tasks /\
    (forall t1 t2, t1 ∈ tasks -> t2 ∈ tasks ->
       (length (task_ids t1) <= length (task_ids t2) + 1)%nat) /\
    (forall t, t ∈ tasks ->
       exists before after,
         List.map fragment_id (get_fragments (lance_ds ex_self))
         = before ++ task_ids t ++ after).
Proof. split; [lia|]. apply (C4_groups_near_equal ex_self 2). lia. Defined.

Lemma tasks_of_kept_groups self groups :
  Forall2 (fun t g => read_task_of_group self g = Some t)
    (omap (read_task_of_group self) groups) (List.filter nonempty groups).
Proof.
  induction groups as [|g groups IH]; [constructor|].
  destruct g as [|f g]; cbn; [exact IH|].
  constructor; [reflexivity|exact IH].
Qed.

(** C5: the read unit of every non-empty fragment group carries block
    metadata whose row count is the sum of the unfiltered row counts of the
    group's fragments, whose input files are the data-file paths of the
    fragments in order, whose schema is that of the group's first fragment
    and whose size and execution statistics are unset.  Nothing of it depends
    on the scan options: any factory over the same dataset handle, whatever
    its filter, reports the same metadata. *)
Theorem C5_block_metadata (self : LanceDatasource) (P : Z)
    (tasks : list ReadTask) :
  get_read_tasks self P = Ok tasks ->
  (exists groups,
     array_split (get_fragments (lance_ds self)) P = Ok groups /\
     Forall2 (fun t g =>
         g <> [] /\
         task_ids t = List.map fragment_id g /\
         num_rows (metadata t)
           = Some (foldr Z.add 0 (List.map (fun f => count_rows f None) g)) /\
         input_files (metadata t)
           = Some (concat (List.map (fun f => List.map path (data_files f)) g)) /\
         schema (metadata t) = fragment_schema <$> head g /\
         size_bytes (metadata t) = None /\
         exec_stats (metadata t) = None)
       tasks (List.filter nonempty groups)) /\
  (forall self', lance_ds self' = lance_ds self ->
     exists tasks', get_read_tasks self' P = Ok tasks' /\
       List.map metadata tasks' = List.map metadata tasks).
Proof.
  intros (groups & Hsplit & ->)%get_read_tasks_inv. split.
  - exists groups. split; [exact Hsplit|].
    eapply Forall2_impl; [apply tasks_of_kept_groups|].
    intros t g Ht. destruct g as [|f g]; [discriminate|].
    injection Ht as <-. cbn -[py_sum List.flat_map List.map foldr].
    rewrite py_sum_foldr, flat_map_concat_map.
    repeat split; congruence.
  - intros self' Hds. eexists. split.
    + apply get_read_tasks_groups. rewrite Hds. exact Hsplit.
    + clear Hsplit. induction groups as [|g groups IH]; [reflexivity|].
      destruct g as [|f g]; cbn; [exact IH|].
      f_equal. exact IH.
Qed.

Lemma C5_block_metadata_witness :
  get_read_tasks ex_self 2 = Ok [ex_task0; ex_task1] /\
  forall self', lance_ds self' = lance_ds ex_self ->
    exists tasks', get_read_tasks self' 2 = Ok tasks' /\
      List.map metadata tasks' = List.map metadata [ex_task0; ex_task1].
Proof.
  split; [reflexivity|].
  apply (C5_block_metadata ex_self 2 [ex_task0; ex_task1]). reflexivity.
Defined.

(** C8: the size estimate is the absent value for every factory instance,
    never zero and never a byte count. *)
Theorem C8_size_estimate_unknown (self : LanceDatasource) :
  estimate_inmemory_data_size self = None /\
  estimate_inmemory_data_size self <> Some 0 /\
  forall n, estimate_inmemory_data_size self <> Some n.
Proof. unfold estimate_inmemory_data_size. repeat split; discriminate. Qed.

(** C10: for every parallelism P <= 0, [get_read_tasks] raises the
    invalid-argument error of the splitting primitive; no list of read units,
    empty or not, is returned. *)
Theorem C10_nonpositive_parallelism_raises (self : LanceDatasource) (P : Z) :
  P <= 0 ->
  get_read_tasks self P
    = Err (ValueError "number sections must be larger than 0.") /\
  forall tasks, get_read_tasks self P <> Ok tasks.
Proof.
  intros HP. unfold get_read_tasks.
  rewrite array_split_error by exact HP.
  split; [reflexivity|discriminate].
Qed.

Lemma C10_nonpositive_parallelism_raises_witness :
  0 <= 0 /\
  get_read_tasks ex_self 0
    = Err (ValueError "number sections must be larger than 0.") /\
  forall tasks, get_read_tasks ex_self 0 <> Ok tasks.
Proof.
  split; [lia|]. apply (C10_nonpositive_parallelism_raises ex_self 0). lia.
Defined.

(** ** State effects of the reader *)

Lemma set_faults_id σ : set_faults (faults σ) σ = σ.
Proof. destruct σ; reflexivity. Qed.

Lemma deref_set_heap_insert l d h σ :
  deref l (set_heap (<[l := d]> h) σ) = d.
Proof. unfold deref. cbn [heap set_heap]. rewrite lookup_insert_eq. reflexivity. Qed.

Lemma storage_call_frame σ :
  exists fs, (storage_call σ = (Ok tt, set_faults fs σ) \/
              exists e, storage_call σ = (Err e, set_faults fs σ)).
Proof.
  unfold storage_call. destruct (faults σ) as [|[e|] fs] eqn:E.
  - exists []. left. rewrite <- E, set_faults_id. reflexivity.
  - exists fs. right. eauto.
  - exists fs. left. reflexivity.
Qed.

Lemma storage_call_no_faults σ :
  faults σ = [] -> storage_call σ = (Ok tt, σ).
Proof. intros H. unfold storage_call. rewrite H. reflexivity. Qed.

Lemma resolve_fragments_frame lance_ds fragment_ids : forall σ,
  exists fs,
    (resolve_fragments lance_ds fragment_ids σ
       = (Ok (List.map (get_fragment lance_ds) fragment_ids), set_faults fs σ)
     \/ exists e,
       resolve_fragments lance_ds fragment_ids σ = (Err e, set_faults fs σ)).
Proof.
  induction fragment_ids as [|id ids IH]; intros σ; cbn.
  - exists (faults σ). left. rewrite set_faults_id. reflexivity.
  - unfold bind.
    destruct (storage_call_frame σ) as (fs & [Hs | (e & Hs)]); rewrite Hs.
    + destruct (IH (set_faults fs σ)) as (fs' & [H | (e & H)]);
        exists fs'; rewrite H; [left|right; exists e]; reflexivity.
    + exists fs. right. eauto.
Qed.

Lemma resolve_fragments_no_faults lance_ds fragment_ids σ :
  faults σ = [] ->
  resolve_fragments lance_ds fragment_ids σ
  = (Ok (List.map (get_fragment lance_ds) fragment_ids), σ).
Proof.
  intros H. induction fragment_ids as [|id ids IH]; cbn; [reflexivity|].
  unfold bind. rewrite storage_call_no_faults, IH by exact H. reflexivity.
Qed.

(** The three ways [open_reader] can end: an error while resolving the
    fragments (nothing written), an error when the scanner is built (the
    fragments are already written into the options dict), or a reader. *)
Lemma open_reader_cases fragment_ids lance_ds l σ :
  let kw := scan_kwargs lance_ds fragment_ids (deref l σ) in
  let σw := set_heap (<[l := kw]> (heap σ)) σ in
  exists fs,
    (exists e, open_reader fragment_ids lance_ds l σ = (Err e, set_faults fs σ))
    \/ (exists e,
          open_reader fragment_ids lance_ds l σ = (Err e, set_faults fs σw))
    \/ open_reader fragment_ids lance_ds l σ
        = (Ok (scan_batches lance_ds kw), log_scan kw (set_faults fs σw)).
Proof.
  intros kw σw. unfold open_reader, bind, dict_setitem.
  destruct (resolve_fragments_frame lance_ds fragment_ids σ)
    as (fs & [Hr | (e & Hr)]); rewrite Hr; [|exists fs; left; eauto].
  rewrite deref_set_heap_insert.
  match goal with |- context [storage_call ?s] =>
    destruct (storage_call_frame s) as (fs' & [Hs | (e & Hs)]); rewrite Hs end.
  - exists fs'. right. right. reflexivity.
  - exists fs'. right. left. exists e. reflexivity.
Qed.

Lemma reader_step_frame reader σ :
  exists fs, (reader_step reader σ).2 = set_faults fs σ.
Proof.
  unfold reader_step.
  destruct (storage_call_frame σ) as (fs & [Hs | (e & Hs)]); rewrite Hs;
    exists fs; [destruct reader|]; reflexivity.
Qed.

(** The state after the first [next] of a fresh generator: apart from the
    fault script, either nothing changed, or the fragments were written into
    the options dict, or they were written and the scan was logged. *)
Lemma gen_next_created_state fragment_ids lance_ds l σ :
  let kw := scan_kwargs lance_ds fragment_ids (deref l σ) in
  let σw := set_heap (<[l := kw]> (heap σ)) σ in
  exists fs,
    let σ' := (gen_next (GenCreated fragment_ids lance_ds l) σ).2 in
    σ' = set_faults fs σ \/ σ' = set_faults fs σw
    \/ σ' = set_faults fs (log_scan kw σw).
Proof.
  intros kw σw. cbn [gen_next].
  destruct (open_reader_cases fragment_ids lance_ds l σ)
    as (fs & [(e & H) | [(e & H) | H]]); rewrite H.
  - exists fs. left. reflexivity.
  - exists fs. right. left. reflexivity.
  - destruct (reader_step_frame (scan_batches lance_ds kw)
                (log_scan kw (set_faults fs σw))) as (fs' & Hs).
    exists fs'. right. right. cbn zeta. fold kw σw. rewrite Hs. reflexivity.
Qed.

Lemma gen_next_created_no_faults fragment_ids lance_ds l σ :
  faults σ = [] ->
  let kw := scan_kwargs lance_ds fragment_ids (deref l σ) in
  (gen_next (GenCreated fragment_ids lance_ds l) σ).2
  = log_scan kw (set_heap (<[l := kw]> (heap σ)) σ).
Proof.
  intros Hf kw. cbn [gen_next]. unfold open_reader, bind, dict_setitem.
  rewrite resolve_fragments_no_faults by exact Hf.
  rewrite deref_set_heap_insert.
  rewrite storage_call_no_faults by exact Hf.
  unfold ret, reader_step. rewrite storage_call_no_faults by exact Hf.
  fold (scan_kwargs lance_ds fragment_ids (deref l σ)). fold kw.
  destruct (scan_batches lance_ds kw); reflexivity.
Qed.

(** [next] never sleeps: no step of a generator goes through the retry
    helper. *)
Lemma gen_next_sleeps gen σ : sleeps (gen_next gen σ).2 = sleeps σ.
Proof.
  destruct gen as [ids ds l|reader|].
  - destruct (gen_next_created_state ids ds l σ) as (fs & [H | [H | H]]);
      cbn zeta in H; rewrite H; reflexivity.
  - destruct (reader_step_frame reader σ) as (fs & H).
    cbn [gen_next]. rewrite H. reflexivity.
  - reflexivity.
Qed.

(** [drain_gen] is the consumer's loop over [gen_next]. *)
Lemma drain_gen_next gen σ :
  drain_gen gen σ
  = match gen_next gen σ with
    | (Raised e, _, σ') => (Err e, σ')
    | (StopIteration, _, σ') => (Ok [], σ')
    | (Yielded t, gen', σ') =>
        (ts <- drain_gen gen' ;; ret (t :: ts)) σ'
    end.
Proof.
  assert (Hr : forall reader σ,
    drain_reader reader σ
    = match reader_step reader σ with
      | (Raised e, _, σ') => (Err e, σ')
      | (StopIteration, _, σ') => (Ok [], σ')
      | (Yielded t, gen', σ') => (ts <- drain_gen gen' ;; ret (t :: ts)) σ'
      end).
  { intros reader s. unfold reader_step.
    destruct reader as [|b reader]; cbn [drain_reader]; unfold bind at 1;
      destruct (storage_call s) as [[[]|e] s']; reflexivity. }
  destruct gen as [ids ds l|reader|]; cbn [drain_gen gen_next].
  - unfold bind at 1.
    destruct (open_reader ids ds l σ) as [[reader|e] σ']; [apply Hr|reflexivity].
  - apply Hr.
  - reflexivity.
Qed.

(** ** The retry wrapper around a generator function *)

(** Calling [read_fn] runs one attempt of [call_with_retry], and that attempt
    is the call of the generator function: it returns the fresh generator at
    once, having touched nothing. *)
Lemma call_read_fn_lazy (f : ReadFn) σ :
  0 < max_attempts (cl_retry_params f) ->
  call_read_fn f σ
  = (Ok (GenCreated (cl_fragment_ids f) (cl_lance_ds f) (cl_scanner_options f)),
     σ).
Proof.
  intros H. unfold call_read_fn, _read_fragments_with_retry, call_with_retry.
  destruct (Z.to_nat (max_attempts (cl_retry_params f))) as [|[|r]] eqn:E;
    [lia|reflexivity..].
Qed.

Lemma drain_gen_sleeps gen σ : sleeps (drain_gen gen σ).2 = sleeps σ.
Proof.
  assert (Hr : forall reader σ, sleeps (drain_reader reader σ).2 = sleeps σ).
  { induction reader as [|b reader IH]; intros s; cbn [drain_reader];
      unfold bind at 1;
      destruct (storage_call_frame s) as (fs & [Hs | (e & Hs)]); rewrite Hs;
      try reflexivity.
    unfold bind. specialize (IH (set_faults fs s)).
    destruct (drain_reader reader (set_faults fs s)) as [[ts|e] s'];
      exact IH. }
  destruct gen as [ids ds l|reader|]; cbn [drain_gen].
  - unfold bind.
    destruct (open_reader_cases ids ds l σ)
      as (fs & [(e & H) | [(e & H) | H]]); rewrite H; try reflexivity.
    rewrite Hr. reflexivity.
  - apply Hr.
  - reflexivity.
Qed.

(** Whatever the storage layer does and whatever the policy says, running a
    read unit never backs off: no attempt is ever repeated. *)
Lemma run_read_task_never_sleeps (t : ReadTask) σ :
  0 < max_attempts (cl_retry_params (read_fn t)) ->
  sleeps (run_read_task t σ).2 = sleeps σ.
Proof.
  intros H. unfold run_read_task, bind.
  rewrite call_read_fn_lazy by exact H. apply drain_gen_sleeps.
Qed.

(** ** [__init__] *)

Lemma scanner_options_or_new_cases (so : option loc) σ :
  (exists l, so = Some l /\ size (deref l σ) <> 0%nat /\
             scanner_options_or_new so σ = (Ok l, σ))
  \/ (match so with Some l => deref l σ = ∅ | None => True end /\
      scanner_options_or_new so σ
      = (Ok (fresh (dom (heap σ))),
         set_heap (<[fresh (dom (heap σ)) := ∅]> (heap σ)) σ)).
Proof.
  unfold scanner_options_or_new, dict_truthy, new_dict, ret.
  destruct so as [l|]; [|right; split; [exact I|reflexivity]].
  destruct (Nat.eqb_spec (size (deref l σ)) 0) as [E|E]; cbn [negb].
  - right. split; [|reflexivity]. apply map_size_empty_iff, E.
  - left. exists l. auto.
Qed.

Lemma deref_store_options l columns filter σ :
  deref l (store_options l columns filter σ)
  = merge_options columns filter (deref l σ).
Proof.
  unfold store_options.
  destruct columns, filter; try apply deref_set_heap_insert. reflexivity.
Qed.

Lemma heap_store_options_ne l l' columns filter σ :
  l' <> l -> heap (store_options l columns filter σ) !! l' = heap σ !! l'.
Proof.
  intros Hne. unfold store_options.
  destruct columns, filter; cbn [heap set_heap];
    rewrite ?lookup_insert_ne by congruence; reflexivity.
Qed.

(** [__init__] once the import check has passed and the options dict is
    chosen: the writes happen first, then the dataset is opened, so a failed
    open leaves the writes in place. *)
Lemma init_run env uri columns filter sto so σ l σ0 :
  lance_installed env = true ->
  scanner_options_or_new so σ = (Ok l, σ0) ->
  __init__ env uri columns filter sto so σ
  = match lance_dataset env uri sto with
    | Ok ds =>
        (Ok {| uri := uri; scanner_options := l; storage_options := sto;
               lance_ds := ds;
               _retry_params :=
                 {| description := "read lance fragments";
                    match_ := READ_FRAGMENTS_ERRORS_TO_RETRY
                                ++ retried_io_errors σ0;
                    max_attempts := READ_FRAGMENTS_MAX_ATTEMPTS;
                    max_backoff_s := READ_FRAGMENTS_RETRY_MAX_BACKOFF_SECONDS |} |},
         store_options l columns filter σ0)
    | Err e => (Err e, store_options l columns filter σ0)
    end.
Proof.
  intros Hi Hso. unfold __init__, _check_import. rewrite Hi.
  unfold bind at 1. unfold ret at 1. unfold bind at 1. rewrite Hso.
  assert (Hw : forall c f,
    set_heap (<[l := <["filter" := VStr f]>
                (deref l (set_heap (<[l := <["columns" := VStrList c]>
                                           (deref l σ0)]> (heap σ0)) σ0))]>
                (heap (set_heap (<[l := <["columns" := VStrList c]>
                                           (deref l σ0)]> (heap σ0)) σ0)))
      (set_heap (<[l := <["columns" := VStrList c]> (deref l σ0)]> (heap σ0)) σ0)
    = store_options l (Some c) (Some f) σ0).
  { intros c f. rewrite deref_set_heap_insert. cbn [heap set_heap].
    rewrite insert_insert_eq. reflexivity. }
  destruct columns as [c|], filter as [f|];
    unfold bind, dict_setitem, ret; rewrite ?Hw;
    destruct (lance_dataset env uri sto); reflexivity.
Qed.

Lemma scanner_options_or_new_context so σ l σ0 :
  scanner_options_or_new so σ = (Ok l, σ0) ->
  retried_io_errors σ0 = retried_io_errors σ.
Proof.
  destruct (scanner_options_or_new_cases so σ) as [(l' & _ & _ & H) | [_ H]];
    rewrite H; intros [= <- <-]; reflexivity.
Qed.

Lemma init_inv env uri columns filter sto so σ self σ1 :
  __init__ env uri columns filter sto so σ = (Ok self, σ1) ->
  exists σ0,
    scanner_options_or_new so σ = (Ok (scanner_options self), σ0) /\
    σ1 = store_options (scanner_options self) columns filter σ0 /\
    lance_dataset env uri sto = Ok (lance_ds self) /\
    _retry_params self
    = {| description := "read lance fragments";
         match_ := READ_FRAGMENTS_ERRORS_TO_RETRY ++ retried_io_errors σ;
         max_attempts := READ_FRAGMENTS_MAX_ATTEMPTS;
         max_backoff_s := READ_FRAGMENTS_RETRY_MAX_BACKOFF_SECONDS |}.
Proof.
  destruct (lance_installed env) eqn:Hi.
  - assert (exists l σ0, scanner_options_or_new so σ = (Ok l, σ0))
      as (l & σ0 & Hso).
    { destruct (scanner_options_or_new_cases so σ) as [(l & _ & _ & H)|[_ H]];
        eauto. }
    rewrite (init_run _ _ _ _ _ _ _ _ _ Hi Hso).
    destruct (lance_dataset env uri sto) as [ds|e]; [|discriminate].
    intros [= <- <-]. exists σ0. cbn.
    rewrite (scanner_options_or_new_context _ _ _ _ Hso). auto.
  - unfold __init__, _check_import. rewrite Hi. discriminate.
Qed.

(** The constructor succeeds whenever [lance] is importable and the dataset
    opens. *)
Lemma init_succeeds env uri columns filter sto so σ ds :
  lance_installed env = true ->
  lance_dataset env uri sto = Ok ds ->
  exists self σ1,
    __init__ env uri columns filter sto so σ = (Ok self, σ1) /\
    lance_ds self = ds.
Proof.
  intros Hi Hds.
  destruct (scanner_options_or_new_cases so σ) as [(l & _ & _ & H)|[_ H]];
    rewrite (init_run _ _ _ _ _ _ _ _ _ Hi H), Hds; eauto.
Qed.

Lemma merge_options_lookup columns filter (d : gmap string PyVal) :
  (forall c, columns = Some c ->
     merge_options columns filter d !! "columns" = Some (VStrList c)) /\
  (forall f, filter = Some f ->
     merge_options columns filter d !! "filter" = Some (VStr f)) /\
  (columns = None -> merge_options columns filter d !! "columns" = d !! "columns") /\
  (filter = None -> merge_options columns filter d !! "filter" = d !! "filter") /\
  (forall k, k <> "columns" -> k <> "filter" ->
     merge_options columns filter d !! k = d !! k).
Proof.
  unfold merge_options.
  destruct columns as [c|], filter as [f|]; repeat split; intros;
    simplify_map_eq; reflexivity.
Qed.

(** The dict the factory keeps holds the caller's entries (none when no
    usable mapping was passed). *)
Lemma scanner_options_or_new_contents so σ l σ0 :
  scanner_options_or_new so σ = (Ok l, σ0) ->
  deref l σ0 = match so with Some l0 => deref l0 σ | None => ∅ end.
Proof.
  destruct (scanner_options_or_new_cases so σ)
    as [(l' & -> & _ & H) | [He H]]; rewrite H; intros [= <- <-].
  - reflexivity.
  - rewrite deref_set_heap_insert. destruct so; auto.
Qed.

Lemma tasks_share_closure self P tasks t :
  get_read_tasks self P = Ok tasks -> t ∈ tasks ->
  task_ids t <> [] /\
  cl_lance_ds (read_fn t) = lance_ds self /\
  cl_scanner_options (read_fn t) = scanner_options self /\
  cl_retry_params (read_fn t) = _retry_params self.
Proof.
  intros (groups & _ & ->)%get_read_tasks_inv (g & _ & Ht)%elem_of_tasks.
  apply read_task_of_group_Some in Ht as (Hg & Hid & ? & ? & ?).
  repeat split; auto. rewrite Hid. destruct g; [congruence|discriminate].
Qed.

Lemma gen_next_created_heap fragment_ids lance_ds l σ :
  let σ' := (gen_next (GenCreated fragment_ids lance_ds l) σ).2 in
  let kw := scan_kwargs lance_ds fragment_ids (deref l σ) in
  (heap σ' = heap σ \/ heap σ' = <[l := kw]> (heap σ)) /\
  (faults σ = [] -> heap σ' = <[l := kw]> (heap σ)).
Proof.
  intros σ' kw. split.
  - destruct (gen_next_created_state fragment_ids lance_ds l σ)
      as (fs & [H | [H | H]]); cbn zeta in H; subst σ'; rewrite H; auto.
  - intros Hf. subst σ'. rewrite gen_next_created_no_faults by exact Hf.
    reflexivity.
Qed.

Lemma gen_next_created_options fragment_ids lance_ds l σ (m : gmap string PyVal) :
  (forall k, k <> "fragments" -> deref l σ !! k = m !! k) ->
  let σ' := (gen_next (GenCreated fragment_ids lance_ds l) σ).2 in
  (forall k, k <> "fragments" -> deref l σ' !! k = m !! k) /\
  (scans σ' = scans σ \/
   exists kw, scans σ' = scans σ ++ [kw] /\
     kw !! "fragments"
       = Some (VFragments (List.map (get_fragment lance_ds) fragment_ids)) /\
     forall k, k <> "fragments" -> kw !! k = m !! k) /\
  (faults σ = [] -> scans σ' <> scans σ).
Proof.
  intros Hm σ'.
  assert (Hkw : forall k, k <> "fragments" ->
            scan_kwargs lance_ds fragment_ids (deref l σ) !! k = m !! k).
  { intros k Hk. unfold scan_kwargs. rewrite lookup_insert_ne by congruence.
    apply Hm, Hk. }
  split; [|split].
  - destruct (gen_next_created_state fragment_ids lance_ds l σ)
      as (fs & [H | [H | H]]); cbn zeta in H; subst σ'; rewrite H.
    + exact Hm.
    + change (deref l (set_faults fs ?s)) with (deref l s).
      rewrite deref_set_heap_insert. exact Hkw.
    + change (deref l (set_faults fs (log_scan ?kw ?s))) with (deref l s).
      rewrite deref_set_heap_insert. exact Hkw.
  - destruct (gen_next_created_state fragment_ids lance_ds l σ)
      as (fs & [H | [H | H]]); cbn zeta in H; subst σ'; rewrite H; auto.
    right. eexists. split; [reflexivity|]. split; [|exact Hkw].
    apply lookup_insert_eq.
  - intros Hf. subst σ'. rewrite gen_next_created_no_faults by exact Hf.
    cbn [scans log_scan set_heap]. intros E.
    apply (f_equal length) in E. rewrite length_app in E. cbn in E. lia.
Qed.

(** C6: the constructor builds the retry policy from the built-in signature
    list followed by the engine's list of retried I/O errors as configured at
    that moment, with at most 10 attempts and a backoff ceiling of 32 seconds;
    every read unit carries that one record, so later changes of the global
    list do not reach it. *)
Theorem C6_retry_policy env uri columns filter sto so σ self σ1 :
  __init__ env uri columns filter sto so σ = (Ok self, σ1) ->
  _retry_params self
  = {| description := "read lance fragments";
       match_ := ["LanceError(IO)"] ++ retried_io_errors σ;
       max_attempts := 10;
       max_backoff_s := 32 |} /\
  forall P tasks t, get_read_tasks self P = Ok tasks -> t ∈ tasks ->
    cl_retry_params (read_fn t) = _retry_params self.
Proof.
  intros (σ0 & _ & _ & _ & Hp)%init_inv. split; [exact Hp|].
  intros P tasks t Ht Hin.
  apply (tasks_share_closure self P tasks t Ht Hin).
Qed.

Lemma C6_retry_policy_witness :
  __init__ ex_env "s3://bucket/ds.lance" (Some ["id"]) None None None ex_state
    = (Ok ex_self, ex_state1) /\
  _retry_params ex_self
  = {| description := "read lance fragments";
       match_ := ["LanceError(IO)"] ++ retried_io_errors ex_state;
       max_attempts := 10;
       max_backoff_s := 32 |} /\
  forall P tasks t, get_read_tasks ex_self P = Ok tasks -> t ∈ tasks ->
    cl_retry_params (read_fn t) = _retry_params ex_self.
Proof.
  split; [reflexivity|].
  apply (C6_retry_policy ex_env "s3://bucket/ds.lance" (Some ["id"]) None None
           None ex_state ex_self ex_state1).
  reflexivity.
Defined.

(** C7: after construction the factory's scan-parameters mapping holds the
    caller's extra parameters with ["columns"] and ["filter"], when given,
    overwriting the entries of the same name; every read unit refers to this
    mapping, and the scan of every group is built from it: the keyword
    arguments of each scan agree with the merged mapping on every key but
    ["fragments"], which holds the group's own fragments. *)
Theorem C7_options_merged env uri columns filter sto so σ self σ1 :
  __init__ env uri columns filter sto so σ = (Ok self, σ1) ->
  let extra := match so with Some l => deref l σ | None => ∅ end in
  let merged := deref (scanner_options self) σ1 in
  (forall c, columns = Some c -> merged !! "columns" = Some (VStrList c)) /\
  (forall f, filter = Some f -> merged !! "filter" = Some (VStr f)) /\
  (columns = None -> merged !! "columns" = extra !! "columns") /\
  (filter = None -> merged !! "filter" = extra !! "filter") /\
  (forall k, k <> "columns" -> k <> "filter" -> merged !! k = extra !! k) /\
  forall P tasks t, get_read_tasks self P = Ok tasks -> t ∈ tasks ->
    cl_scanner_options (read_fn t) = scanner_options self /\
    forall σ2,
      (forall k, k <> "fragments" ->
         deref (scanner_options self) σ2 !! k = merged !! k) ->
      exists gen,
        call_read_fn (read_fn t) σ2 = (Ok gen, σ2) /\
        let σ3 := (gen_next gen σ2).2 in
        (forall k, k <> "fragments" ->
           deref (scanner_options self) σ3 !! k = merged !! k) /\
        (scans σ3 = scans σ2 \/
         exists kw, scans σ3 = scans σ2 ++ [kw] /\
           kw !! "fragments"
             = Some (VFragments
                       (List.map (get_fragment (lance_ds self)) (task_ids t))) /\
           forall k, k <> "fragments" -> kw !! k = merged !! k) /\
        (faults σ2 = [] -> scans σ3 <> scans σ2).
Proof.
  intros Hinit extra merged.
  pose proof Hinit as (σ0 & Hso & -> & _ & Hp)%init_inv.
  assert (Hm : merged = merge_options columns filter extra).
  { subst merged extra. rewrite deref_store_options.
    rewrite (scanner_options_or_new_contents _ _ _ _ Hso). reflexivity. }
  destruct (merge_options_lookup columns filter extra)
    as (H1 & H2 & H3 & H4 & H5).
  rewrite <- Hm in H1, H2, H3, H4, H5.
  do 5 (split; [assumption|]).
  intros P tasks t Ht Hin.
  destruct (tasks_share_closure self P tasks t Ht Hin) as (_ & Hds & Hl & Hr).
  split; [exact Hl|].
  intros σ2 Hagree. eexists. split.
  - apply call_read_fn_lazy. rewrite Hr, Hp. reflexivity.
  - rewrite Hl, Hds.
    apply (gen_next_created_options (task_ids t) (lance_ds self)
             (scanner_options self) σ2 merged Hagree).
Qed.

Lemma C7_options_merged_witness :
  __init__ ex_env "s3://bucket/ds.lance" (Some ["id"]) None None None ex_state
    = (Ok ex_self, ex_state1) /\
  deref (scanner_options ex_self) ex_state1 !! "columns"
    = Some (VStrList ["id"]).
Proof.
  split; [reflexivity|].
  apply (C7_options_merged ex_env "s3://bucket/ds.lance" (Some ["id"]) None
           None None ex_state ex_self ex_state1); reflexivity.
Defined.

(** C9, as stated, fails for an empty mapping: the caller passes a mapping
    that is not [None], together with a columns list, yet the constructor
    keeps a fresh dict and the caller's object stays empty. *)
Lemma C9_empty_mapping_counterexample :
  heap ex_state_caller !! 5%positive = Some ∅ /\
  match __init__ ex_env "s3://bucket/ds.lance" (Some ["id"]) None None
          (Some 5%positive) ex_state_caller with
  | (Ok self, σ1) =>
      scanner_options self <> 5%positive /\
      heap σ1 !! 5%positive = Some ∅ /\
      deref (scanner_options self) σ1 !! "columns" = Some (VStrList ["id"])
  | (Err _, _) => False
  end.
Proof. vm_compute. repeat split. discriminate. Qed.

(** C9 (amended): when the caller passes a non-empty [scanner_options]
    mapping, the constructor keeps that very object: ["columns"] and
    ["filter"], when given, are written into the caller's dict, its other
    entries stay, and every read unit the factory produces refers to the same
    object. *)
Theorem C9_caller_mapping_shared env uri columns filter sto (l : loc) σ
    (d : gmap string PyVal) :
  lance_installed env = true ->
  heap σ !! l = Some d ->
  d <> ∅ ->
  let r := __init__ env uri columns filter sto (Some l) σ in
  (forall c, columns = Some c -> deref l r.2 !! "columns" = Some (VStrList c)) /\
  (forall f, filter = Some f -> deref l r.2 !! "filter" = Some (VStr f)) /\
  (columns = None -> deref l r.2 !! "columns" = d !! "columns") /\
  (filter = None -> deref l r.2 !! "filter" = d !! "filter") /\
  (forall k, k <> "columns" -> k <> "filter" -> deref l r.2 !! k = d !! k) /\
  (forall l', l' <> l -> heap r.2 !! l' = heap σ !! l') /\
  forall self, r.1 = Ok self ->
    scanner_options self = l /\
    forall P tasks t, get_read_tasks self P = Ok tasks -> t ∈ tasks ->
      cl_scanner_options (read_fn t) = l.
Proof.
  intros Hi Hl Hd r.
  assert (Hderef : deref l σ = d) by (unfold deref; rewrite Hl; reflexivity).
  assert (Hso : scanner_options_or_new (Some l) σ = (Ok l, σ)).
  { destruct (scanner_options_or_new_cases (Some l) σ)
      as [(l' & [= <-] & _ & H) | [He _]]; [exact H|].
    rewrite Hderef in He. contradiction. }
  assert (Hr : r.2 = store_options l columns filter σ /\
               forall self, r.1 = Ok self -> scanner_options self = l).
  { subst r. rewrite (init_run _ _ _ _ _ _ _ _ _ Hi Hso).
    destruct (lance_dataset env uri sto); split; try reflexivity.
    - intros self [= <-]. reflexivity.
    - discriminate. }
  destruct Hr as [Hr2 Hr1]. rewrite Hr2, deref_store_options, Hderef.
  destruct (merge_options_lookup columns filter d) as (H1 & H2 & H3 & H4 & H5).
  do 5 (split; [assumption|]).
  split; [intros l' Hne; apply heap_store_options_ne, Hne|].
  intros self Hself. pose proof (Hr1 self Hself) as Hsl.
  split; [exact Hsl|].
  intros P tasks t Ht Hin. rewrite <- Hsl.
  apply (tasks_share_closure self P tasks t Ht Hin).
Qed.

Lemma C9_caller_mapping_shared_witness :
  (lance_installed ex_env = true /\
   heap ex_state1 !! 1%positive = Some {[ "columns" := VStrList ["id"] ]} /\
   ({[ "columns" := VStrList ["id"] ]} : gmap string PyVal) <> ∅) /\
  deref 1%positive
    (__init__ ex_env "s3://bucket/ds.lance" None (Some "id > 3") None
       (Some 1%positive) ex_state1).2 !! "filter" = Some (VStr "id > 3").
Proof.
  assert (Hne : ({[ "columns" := VStrList ["id"] ]} : gmap string PyVal) <> ∅).
  { intros E. apply (f_equal (fun m => m !! "columns")) in E.
    vm_compute in E. discriminate E. }
  split; [split; [reflexivity|split; [reflexivity|exact Hne]]|].
  apply (C9_caller_mapping_shared ex_env "s3://bucket/ds.lance" None
           (Some "id > 3") None 1%positive ex_state1
           {[ "columns" := VStrList ["id"] ]} eq_refl eq_refl Hne).
  reflexivity.
Defined.

(** C2, as stated, fails: the read unit holds the factory's own options
    object and no copy, and running the read unit writes ["fragments"] into
    that object, where the factory and the other read unit see it. *)
Lemma C2_shared_options_counterexample :
  __init__ ex_env "s3://bucket/ds.lance" (Some ["id"]) None None None ex_state
    = (Ok ex_self, ex_state1) /\
  get_read_tasks ex_self 2 = Ok [ex_task0; ex_task1] /\
  cl_scanner_options (read_fn ex_task0) = scanner_options ex_self /\
  cl_scanner_options (read_fn ex_task1) = scanner_options ex_self /\
  deref (scanner_options ex_self) ex_state1 !! "fragments" = None /\
  deref (scanner_options ex_self) (run_read_task ex_task0 ex_state1).2
    !! "fragments"
  = Some (VFragments [Some (ex_fragment 0 100 "data/0.lance");
                      Some (ex_fragment 1 100 "data/1.lance")]).
Proof. repeat split; reflexivity. Qed.

(** C2 (amended): each read unit's deferred callable receives the factory's
    scan-options mapping itself, not a copy.  Calling it only creates the
    generator and changes nothing; the first request for a batch runs the
    fragment injection, which writes the resolved fragment list under
    ["fragments"] of that shared mapping and leaves every other key and every
    other mapping as it was. *)
Theorem C2_options_shared_by_reference
    env uri columns filter sto so σ0 self σ1 P tasks t :
  __init__ env uri columns filter sto so σ0 = (Ok self, σ1) ->
  get_read_tasks self P = Ok tasks ->
  t ∈ tasks ->
  cl_scanner_options (read_fn t) = scanner_options self /\
  forall σ, exists gen,
    call_read_fn (read_fn t) σ = (Ok gen, σ) /\
    let σ' := (gen_next gen σ).2 in
    let injected :=
      <[scanner_options self :=
          <["fragments" :=
              VFragments (List.map (get_fragment (lance_ds self)) (task_ids t))]>
            (deref (scanner_options self) σ)]> (heap σ) in
    (heap σ' = heap σ \/ heap σ' = injected) /\
    (faults σ = [] -> heap σ' = injected) /\
    (forall k, k <> "fragments" ->
       deref (scanner_options self) σ' !! k
       = deref (scanner_options self) σ !! k) /\
    (forall l', l' <> scanner_options self -> heap σ' !! l' = heap σ !! l').
Proof.
  intros (σi & _ & _ & _ & Hp)%init_inv Ht Hin.
  destruct (tasks_share_closure self P tasks t Ht Hin) as (_ & Hds & Hl & Hr).
  split; [exact Hl|].
  intros σ. eexists. split.
  - apply call_read_fn_lazy. rewrite Hr, Hp. reflexivity.
  - rewrite Hl, Hds. cbn zeta.
    destruct (gen_next_created_heap (task_ids t) (lance_ds self)
                (scanner_options self) σ) as [Hh Hnf].
    cbn zeta in Hh, Hnf. unfold scan_kwargs, task_ids in *.
    split; [exact Hh|]. split; [exact Hnf|]. split.
    + intros k Hk. unfold deref at 1.
      destruct Hh as [-> | ->]; [reflexivity|].
      rewrite lookup_insert_eq. cbn [default].
      apply lookup_insert_ne. congruence.
    + intros l' Hne. destruct Hh as [-> | ->]; [reflexivity|].
      apply lookup_insert_ne. congruence.
Qed.

Lemma C2_options_shared_by_reference_witness :
  (__init__ ex_env "s3://bucket/ds.lance" (Some ["id"]) None None None ex_state
     = (Ok ex_self, ex_state1) /\
   get_read_tasks ex_self 2 = Ok [ex_task0; ex_task1] /\
   ex_task0 ∈ [ex_task0; ex_task1]) /\
  cl_scanner_options (read_fn ex_task0) = scanner_options ex_self.
Proof.
  split; [split; [reflexivity|split; [reflexivity|apply list_elem_of_here]]|].
  apply (C2_options_shared_by_reference ex_env "s3://bucket/ds.lance"
           (Some ["id"]) None None None ex_state ex_self ex_state1 2
           [ex_task0; ex_task1] ex_task0 eq_refl eq_refl
           (list_elem_of_here _ _)).
Defined.

(** C1: at a transient failure the code does not do what the claim says.  The
    policy of the read unit matches the error, and one more attempt would
    succeed, yet running the read unit surfaces the error at once, with no
    backoff and no second attempt: [call_with_retry] only wraps the creation
    of the generator, which cannot fail, and the failing steps run later,
    outside of it.  This holds for a failure while the fragments are opened
    and for a failure while a later batch is retrieved.  The reader of the
    specification, which retries the whole attempt, backs off once (ceiling
    2 s) and delivers both batches. *)
Theorem C1_transient_error_not_retried :
  let p := cl_retry_params (read_fn ex_task0) in
  let σ_open := set_faults [Some ex_io_error] ex_state1 in
  let σ_mid := set_faults [None; None; None; None; Some ex_io_error] ex_state1 in
  let both := [from_batches [mkBatch 0 100]; from_batches [mkBatch 1 100]] in
  is_retryable (match_ p) ex_io_error = true /\
  max_attempts p = 10 /\
  (run_read_task ex_task0 σ_open).1 = Err ex_io_error /\
  sleeps (run_read_task ex_task0 σ_open).2 = [] /\
  scans (run_read_task ex_task0 σ_open).2 = [] /\
  (run_read_task ex_task0 σ_mid).1 = Err ex_io_error /\
  sleeps (run_read_task ex_task0 σ_mid).2 = [] /\
  length (scans (run_read_task ex_task0 σ_mid).2) = 1%nat /\
  (spec_read_with_retry [0; 1] ex_dataset 1%positive p σ_open).1 = Ok both /\
  sleeps (spec_read_with_retry [0; 1] ex_dataset 1%positive p σ_open).2 = [2] /\
  (spec_read_with_retry [0; 1] ex_dataset 1%positive p σ_mid).1 = Ok both /\
  sleeps (spec_read_with_retry [0; 1] ex_dataset 1%positive p σ_mid).2 = [2] /\
  length (scans (spec_read_with_retry [0; 1] ex_dataset 1%positive p σ_mid).2)
    = 2%nat.
Proof. vm_compute. repeat split. Qed.

(** * Further properties of the module *)

(** ** Exact shape of the partition *)

Lemma chunks_lengths {A} (szs : list nat) : forall l : list A,
  (sum_list szs <= length l)%nat ->
  List.map length (chunks szs l) = szs.
Proof.
  induction szs as [|n szs IH]; intros l Hl; cbn in *; [reflexivity|].
  rewrite length_take, IH by (rewrite length_drop; lia). f_equal. lia.
Qed.

Lemma task_sizes self groups :
  List.map (fun t => length (task_ids t))
    (omap (read_task_of_group self) groups)
  = List.filter (fun n => negb (Nat.eqb n 0)) (List.map length groups).
Proof.
  induction groups as [|g groups IH]; [reflexivity|].
  destruct g as [|f g]; cbn; [exact IH|].
  rewrite length_map. f_equal. exact IH.
Qed.

Lemma filter_repeat {A} (p : A -> bool) (x : A) (n : nat) :
  List.filter p (repeat x n) = if p x then repeat x n else [].
Proof.
  induction n as [|n IH]; cbn; [destruct (p x); reflexivity|].
  rewrite IH. destruct (p x); reflexivity.
Qed.

Lemma kept_section_sizes (n k : nat) :
  List.filter (fun s => negb (Nat.eqb s 0)) (section_sizes n k)
  = repeat (n / k + 1)%nat (n mod k)
    ++ (if Nat.eqb (n / k) 0 then [] else repeat (n / k)%nat (k - n mod k)).
Proof.
  unfold section_sizes. rewrite List.filter_app, !filter_repeat.
  replace (Nat.eqb (n / k + 1) 0) with false
    by (symmetry; apply Nat.eqb_neq; lia).
  destruct (Nat.eqb (n / k) 0); reflexivity.
Qed.

Lemma get_read_tasks_sizes (self : LanceDatasource) (P : Z) :
  1 <= P ->
  exists tasks,
    get_read_tasks self P = Ok tasks /\
    List.map (fun t => length (task_ids t)) tasks
    = List.filter (fun s => negb (Nat.eqb s 0))
        (section_sizes (length (get_fragments (lance_ds self))) (Z.to_nat P)).
Proof.
  intros HP. eexists. split.
  - apply get_read_tasks_groups, array_split_chunks. lia.
  - rewrite task_sizes, chunks_lengths; [reflexivity|].
    rewrite section_sizes_sum by lia. reflexivity.
Qed.

(** X1: for P >= 1 the read units have, in order, these numbers of
    fragments: the first [F mod P] units one more than [F / P], the others
    [F / P], the units of size zero left out. *)
Theorem get_read_tasks_group_sizes (self : LanceDatasource) (P : Z) :
  1 <= P ->
  let F := length (get_fragments (lance_ds self)) in
  let k := Z.to_nat P in
  exists tasks,
    get_read_tasks self P = Ok tasks /\
    List.map (fun t => length (task_ids t)) tasks
    = repeat (F / k + 1)%nat (F mod k)
      ++ (if Nat.eqb (F / k) 0 then [] else repeat (F / k)%nat (k - F mod k)).
Proof.
  intros HP F k.
  destruct (get_read_tasks_sizes self P HP) as (tasks & Ht & Hs).
  exists tasks. split; [exact Ht|].
  rewrite Hs. apply kept_section_sizes.
Qed.

Lemma get_read_tasks_group_sizes_witness :
  1 <= 2 /\
  exists tasks,
    get_read_tasks ex_self 2 = Ok tasks /\
    List.map (fun t => length (task_ids t)) tasks = [2%nat; 1%nat].
Proof.
  split; [lia|]. apply (get_read_tasks_group_sizes ex_self 2). lia.
Defined.

(** X2: for P >= 1 the number of read units is exactly min(F, P). *)
Theorem get_read_tasks_count (self : LanceDatasource) (P : Z) :
  1 <= P ->
  exists tasks,
    get_read_tasks self P = Ok tasks /\
    length tasks
    = Nat.min (length (get_fragments (lance_ds self))) (Z.to_nat P).
Proof.
  intros HP.
  destruct (get_read_tasks_sizes self P HP) as (tasks & Ht & Hs).
  exists tasks. split; [exact Ht|].
  apply (f_equal length) in Hs. rewrite length_map in Hs. rewrite Hs.
  rewrite kept_section_sizes, length_app, repeat_length.
  set (F := length (get_fragments (lance_ds self))).
  set (k := Z.to_nat P).
  assert (Hk : (0 < k)%nat) by (subst k; lia).
  pose proof (Nat.div_mod_eq F k) as Hdm.
  pose proof (Nat.mod_upper_bound F k ltac:(lia)) as Hlt.
  destruct (Nat.eqb_spec (F / k) 0) as [E|E].
  - rewrite E in Hdm. cbn [length]. nia.
  - rewrite repeat_length. nia.
Qed.

Lemma get_read_tasks_count_witness :
  1 <= 5 /\
  exists tasks,
    get_read_tasks ex_self 5 = Ok tasks /\
    length tasks = Nat.min (length (get_fragments (lance_ds ex_self))) (Z.to_nat 5).
Proof. split; [lia|]. apply (get_read_tasks_count ex_self 5). lia. Defined.

(** X3: when the parallelism is at least the number of fragments, every read
    unit reads exactly one fragment. *)
Theorem get_read_tasks_one_fragment_each (self : LanceDatasource) (P : Z) :
  1 <= P ->
  Z.of_nat (length (get_fragments (lance_ds self))) <= P ->
  exists tasks,
    get_read_tasks self P = Ok tasks /\
    Forall (fun t => length (task_ids t) = 1%nat) tasks.
Proof.
  intros HP HF.
  destruct (get_read_tasks_sizes self P HP) as (tasks & Ht & Hs).
  exists tasks. split; [exact Ht|].
  rewrite kept_section_sizes in Hs.
  set (F := length (get_fragments (lance_ds self))) in *.
  set (k := Z.to_nat P) in *.
  assert (Hk : (0 < k)%nat) by (subst k; lia).
  assert (HFk : (F <= k)%nat) by (subst k; lia).
  pose proof (Nat.div_mod_eq F k) as Hdm.
  pose proof (Nat.mod_upper_bound F k ltac:(lia)) as Hlt.
  assert (Hall : Forall (fun s => s = 1%nat)
            (List.map (fun t => length (task_ids t)) tasks)).
  { rewrite Hs. apply Forall_app. split.
    - apply Forall_forall. intros s Hin%list_elem_of_In.
      pose proof (repeat_spec _ _ _ Hin) as ->.
      destruct (Nat.eq_dec (F mod k) 0) as [Er|Er];
        [rewrite Er in Hin; destruct Hin|nia].
    - destruct (Nat.eqb_spec (F / k) 0) as [E|E]; [constructor|].
      apply Forall_forall. intros s Hin%list_elem_of_In%repeat_spec. nia. }
  rewrite Forall_fmap in Hall. exact Hall.
Qed.

Lemma get_read_tasks_one_fragment_each_witness :
  (1 <= 20 /\ Z.of_nat (length (get_fragments (lance_ds ex_self))) <= 20) /\
  exists tasks,
    get_read_tasks ex_self 20 = Ok tasks /\
    Forall (fun t => length (task_ids t) = 1%nat) tasks.
Proof.
  split; [split; [lia|vm_compute; discriminate]|].
  apply (get_read_tasks_one_fragment_each ex_self 20);
    [lia|vm_compute; discriminate].
Defined.

(** ** Totals over the read units *)

Lemma array_split_concat {A} (ary : list A) (P : Z) groups :
  array_split ary P = Ok groups -> 0 < P /\ concat groups = ary.
Proof.
  intros H. destruct (Z.leb_spec P 0) as [Hle|Hlt].
  - rewrite array_split_error in H by exact Hle. discriminate.
  - split; [exact Hlt|].
    destruct (array_split_spec ary P Hlt) as (groups' & H' & _ & Hcat & _).
    rewrite H in H'. injection H' as <-. exact Hcat.
Qed.

Lemma foldr_add_app (l k : list Z) :
  foldr Z.add 0 (l ++ k) = foldr Z.add 0 l + foldr Z.add 0 k.
Proof. induction l as [|x l IH]; cbn; [reflexivity|]. rewrite IH. lia. Qed.

Lemma tasks_totals self groups :
  foldr Z.add 0
    (List.map (fun t => default 0 (num_rows (metadata t)))
       (omap (read_task_of_group self) groups))
  = foldr Z.add 0 (List.map (fun f => count_rows f None) (concat groups)) /\
  concat
    (List.map (fun t => default [] (input_files (metadata t)))
       (omap (read_task_of_group self) groups))
  = concat (List.map (fun f => List.map path (data_files f)) (concat groups)).
Proof.
  induction groups as [|g groups [IHr IHf]]; [split; reflexivity|].
  cbn [concat]. rewrite !List.map_app, foldr_add_app, concat_app.
  destruct g as [|f g]; [split; assumption|].
  cbn -[py_sum List.flat_map List.map foldr concat].
  rewrite List.map_cons, (List.map_cons (fun t => default [] _)).
  cbn -[py_sum List.flat_map List.map foldr concat].
  rewrite py_sum_foldr, flat_map_concat_map. split.
  - cbn [foldr]. rewrite IHr. reflexivity.
  - cbn [concat]. rewrite IHf. reflexivity.
Qed.

(** X4: the row counts reported by the read units add up to the row count
    of all fragments of the dataset, and their input-file lists, one after the
    other, are the data files of all fragments in fragment order. *)
Theorem get_read_tasks_totals (self : LanceDatasource) (P : Z)
    (tasks : list ReadTask) :
  get_read_tasks self P = Ok tasks ->
  foldr Z.add 0 (List.map (fun t => default 0 (num_rows (metadata t))) tasks)
  = foldr Z.add 0
      (List.map (fun f => count_rows f None) (get_fragments (lance_ds self))) /\
  concat (List.map (fun t => default [] (input_files (metadata t))) tasks)
  = concat (List.map (fun f => List.map path (data_files f))
              (get_fragments (lance_ds self))) /\
  Forall (fun t => is_Some (num_rows (metadata t)) /\
                   is_Some (input_files (metadata t))) tasks.
Proof.
  intros (groups & Hsplit & ->)%get_read_tasks_inv.
  apply array_split_concat in Hsplit as [_ Hcat].
  destruct (tasks_totals self groups) as [Hr Hf].
  rewrite Hcat in Hr, Hf. split; [exact Hr|]. split; [exact Hf|].
  apply Forall_forall. intros t (g & _ & Ht)%elem_of_tasks.
  destruct g as [|f g]; [discriminate|]. injection Ht as <-.
  split; eexists; reflexivity.
Qed.

Lemma get_read_tasks_totals_witness :
  get_read_tasks ex_self 2 = Ok [ex_task0; ex_task1] /\
  foldr Z.add 0
    (List.map (fun t => default 0 (num_rows (metadata t))) [ex_task0; ex_task1])
  = foldr Z.add 0
      (List.map (fun f => count_rows f None) (get_fragments (lance_ds ex_self))).
Proof.
  split; [reflexivity|].
  apply (get_read_tasks_totals ex_self 2 [ex_task0; ex_task1]). reflexivity.
Defined.

(** ** From identifiers back to fragments *)

Lemma find_fragment_by_id (l : list LanceFragment) (f : LanceFragment) :
  NoDup (List.map fragment_id l) -> f ∈ l ->
  List.find (fun f' => Z.eqb (fragment_id f') (fragment_id f)) l = Some f.
Proof.
  induction l as [|a l IH]; intros Hnd Hin; [inversion Hin|].
  cbn in Hnd. apply NoDup_cons in Hnd as [Ha Hnd].
  apply elem_of_cons in Hin as [-> | Hin]; cbn.
  - rewrite Z.eqb_refl. reflexivity.
  - destruct (Z.eqb_spec (fragment_id a) (fragment_id f)) as [E|E].
    + exfalso. apply Ha. rewrite E.
      apply (list_elem_of_fmap_2 fragment_id), Hin.
    + apply IH; assumption.
Qed.

(** X5: when the fragment identifiers of the dataset are pairwise distinct,
    the identifiers a read unit carries resolve, at read time, to exactly the
    fragments of its group: the fragments that are scanned are the ones the
    unit's metadata was computed from. *)
Theorem read_task_ids_resolve (self : LanceDatasource) (P : Z)
    (tasks : list ReadTask) (t : ReadTask) :
  NoDup (List.map fragment_id (get_fragments (lance_ds self))) ->
  get_read_tasks self P = Ok tasks ->
  t ∈ tasks ->
  exists g,
    g <> [] /\
    (forall f, f ∈ g -> f ∈ get_fragments (lance_ds self)) /\
    task_ids t = List.map fragment_id g /\
    List.map (get_fragment (cl_lance_ds (read_fn t))) (task_ids t)
      = List.map Some g /\
    num_rows (metadata t)
      = Some (foldr Z.add 0 (List.map (fun f => count_rows f None) g)).
Proof.
  intros Hnd (groups & Hsplit & ->)%get_read_tasks_inv
         (g & Hg & Ht)%elem_of_tasks.
  apply array_split_concat in Hsplit as [_ Hcat].
  assert (Hsub : forall f, f ∈ g -> f ∈ get_fragments (lance_ds self)).
  { intros f Hf. rewrite <- Hcat. apply list_elem_of_In, in_concat.
    exists g. split; apply list_elem_of_In; assumption. }
  exists g. destruct g as [|f0 g]; [discriminate|]. injection Ht as <-.
  split; [discriminate|]. split; [exact Hsub|]. split; [reflexivity|].
  split.
  - unfold task_ids. cbn [read_fn cl_fragment_ids cl_lance_ds].
    change (fragment_id f0 :: List.map fragment_id g)
      with (List.map fragment_id (f0 :: g)).
    rewrite List.map_map. apply List.map_ext_in.
    intros f Hf%list_elem_of_In. unfold get_fragment.
    apply find_fragment_by_id; auto.
  - cbn [metadata num_rows]. rewrite py_sum_foldr. reflexivity.
Qed.

Lemma read_task_ids_resolve_witness :
  (NoDup (List.map fragment_id (get_fragments (lance_ds ex_self))) /\
   get_read_tasks ex_self 2 = Ok [ex_task0; ex_task1] /\
   ex_task1 ∈ [ex_task0; ex_task1]) /\
  exists g,
    g <> [] /\
    (forall f, f ∈ g -> f ∈ get_fragments (lance_ds ex_self)) /\
    task_ids ex_task1 = List.map fragment_id g /\
    List.map (get_fragment (cl_lance_ds (read_fn ex_task1))) (task_ids ex_task1)
      = List.map Some g /\
    num_rows (metadata ex_task1)
      = Some (foldr Z.add 0 (List.map (fun f => count_rows f None) g)).
Proof.
  assert (Hnd : NoDup (List.map fragment_id (get_fragments (lance_ds ex_self)))).
  { cbn. repeat (apply NoDup_cons; split; [vm_compute; intros H;
      repeat (apply elem_of_cons in H as [H|H]; [discriminate H|]);
      inversion H|]). apply NoDup_nil. exact I. }
  assert (Hin : ex_task1 ∈ [ex_task0; ex_task1])
    by (apply list_elem_of_further, list_elem_of_here).
  split; [split; [exact Hnd|split; [reflexivity|exact Hin]]|].
  apply (read_task_ids_resolve ex_self 2 [ex_task0; ex_task1] ex_task1 Hnd
           eq_refl Hin).
Defined.

(** ** Running read units *)

Lemma drain_reader_no_faults reader σ :
  faults σ = [] ->
  drain_reader reader σ
  = (Ok (List.map (fun batch => from_batches [batch]) reader), σ).
Proof.
  intros Hf. induction reader as [|b reader IH]; cbn [drain_reader];
    unfold bind; rewrite storage_call_no_faults by exact Hf; [reflexivity|].
  rewrite IH. reflexivity.
Qed.

Lemma run_read_task_no_faults (t : ReadTask) σ :
  0 < max_attempts (cl_retry_params (read_fn t)) ->
  faults σ = [] ->
  let kw := scan_kwargs (cl_lance_ds (read_fn t)) (task_ids t)
              (deref (cl_scanner_options (read_fn t)) σ) in
  run_read_task t σ
  = (Ok (List.map (fun batch => from_batches [batch])
           (scan_batches (cl_lance_ds (read_fn t)) kw)),
     log_scan kw
       (set_heap (<[cl_scanner_options (read_fn t) := kw]> (heap σ)) σ)).
Proof.
  intros Hp Hf kw. unfold run_read_task, bind.
  rewrite call_read_fn_lazy by exact Hp.
  cbn [drain_gen]. unfold bind, open_reader, bind, dict_setitem.
  rewrite resolve_fragments_no_faults by exact Hf.
  rewrite deref_set_heap_insert.
  rewrite storage_call_no_faults by exact Hf.
  unfold ret. rewrite drain_reader_no_faults by exact Hf.
  reflexivity.
Qed.

(** X6: when storage does not fail, running a read unit scans once, with the
    options mapping as it is at that moment plus the unit's own fragments
    under ["fragments"] (replacing any such entry), and delivers one table
    per batch of the scanner, each holding exactly that batch, in the
    scanner's order. *)
Theorem run_read_task_batches (self : LanceDatasource) (P : Z)
    (tasks : list ReadTask) (t : ReadTask) σ :
  0 < max_attempts (_retry_params self) ->
  get_read_tasks self P = Ok tasks ->
  t ∈ tasks ->
  faults σ = [] ->
  let kw := <["fragments" :=
               VFragments (List.map (get_fragment (lance_ds self)) (task_ids t))]>
              (deref (scanner_options self) σ) in
  (run_read_task t σ).1
    = Ok (List.map (fun batch => from_batches [batch])
            (scan_batches (lance_ds self) kw)) /\
  scans (run_read_task t σ).2 = scans σ ++ [kw] /\
  sleeps (run_read_task t σ).2 = sleeps σ.
Proof.
  intros Hp Ht Hin Hf kw.
  destruct (tasks_share_closure self P tasks t Ht Hin) as (_ & Hds & Hl & Hr).
  rewrite run_read_task_no_faults by (rewrite ?Hr; assumption).
  rewrite Hds, Hl. repeat split.
Qed.

Lemma run_read_task_batches_witness :
  (0 < max_attempts (_retry_params ex_self) /\
   get_read_tasks ex_self 2 = Ok [ex_task0; ex_task1] /\
   ex_task0 ∈ [ex_task0; ex_task1] /\
   faults ex_state1 = []) /\
  (run_read_task ex_task0 ex_state1).1
  = Ok [from_batches [mkBatch 0 100]; from_batches [mkBatch 1 100]].
Proof.
  split; [repeat split; try reflexivity; apply list_elem_of_here|].
  apply (run_read_task_batches ex_self 2 [ex_task0; ex_task1] ex_task0
           ex_state1 eq_refl eq_refl (list_elem_of_here _ _) eq_refl).
Defined.

(** X7: read units of one factory share the options mapping, yet running one
    of them first does not change what another one reads afterwards: the
    second unit overwrites ["fragments"] before it scans.  Its result and the
    mapping it leaves are the same as if it had run alone; in particular a
    read unit can be run again and reads the same. *)
Theorem read_tasks_do_not_interfere (self : LanceDatasource) (P : Z)
    (tasks : list ReadTask) (t1 t2 : ReadTask) σ :
  0 < max_attempts (_retry_params self) ->
  get_read_tasks self P = Ok tasks ->
  t1 ∈ tasks -> t2 ∈ tasks ->
  faults σ = [] ->
  let σ1 := (run_read_task t1 σ).2 in
  (run_read_task t2 σ1).1 = (run_read_task t2 σ).1 /\
  heap (run_read_task t2 σ1).2 = heap (run_read_task t2 σ).2.
Proof.
  intros Hp Ht Hin1 Hin2 Hf σ1.
  destruct (tasks_share_closure self P tasks t1 Ht Hin1) as (_ & Hds1 & Hl1 & Hr1).
  destruct (tasks_share_closure self P tasks t2 Ht Hin2) as (_ & Hds2 & Hl2 & Hr2).
  assert (Hσ1 : σ1 = log_scan
            (scan_kwargs (lance_ds self) (task_ids t1)
               (deref (scanner_options self) σ))
            (set_heap (<[scanner_options self :=
                          scan_kwargs (lance_ds self) (task_ids t1)
                            (deref (scanner_options self) σ)]> (heap σ)) σ)).
  { subst σ1. rewrite run_read_task_no_faults by (rewrite ?Hr1; assumption).
    rewrite Hds1, Hl1. reflexivity. }
  assert (Hf1 : faults σ1 = []) by (rewrite Hσ1; exact Hf).
  rewrite !run_read_task_no_faults by (rewrite ?Hr2; assumption).
  rewrite Hds2, Hl2.
  assert (Hkw : scan_kwargs (lance_ds self) (task_ids t2)
                  (deref (scanner_options self) σ1)
                = scan_kwargs (lance_ds self) (task_ids t2)
                    (deref (scanner_options self) σ)).
  { rewrite Hσ1.
    change (deref ?l (log_scan ?kw ?s)) with (deref l s).
    rewrite deref_set_heap_insert. unfold scan_kwargs.
    apply insert_insert_eq. }
  rewrite Hkw. split; [reflexivity|].
  cbn [snd heap log_scan set_heap]. rewrite Hσ1. cbn [heap log_scan set_heap].
  apply insert_insert_eq.
Qed.

Lemma read_tasks_do_not_interfere_witness :
  (0 < max_attempts (_retry_params ex_self) /\
   get_read_tasks ex_self 2 = Ok [ex_task0; ex_task1] /\
   ex_task0 ∈ [ex_task0; ex_task1] /\
   ex_task1 ∈ [ex_task0; ex_task1] /\
   faults ex_state1 = []) /\
  (run_read_task ex_task1 (run_read_task ex_task0 ex_state1).2).1
  = (run_read_task ex_task1 ex_state1).1.
Proof.
  assert (H0 : ex_task0 ∈ [ex_task0; ex_task1]) by apply list_elem_of_here.
  assert (H1 : ex_task1 ∈ [ex_task0; ex_task1])
    by (apply list_elem_of_further, list_elem_of_here).
  split; [repeat split; try reflexivity; assumption|].
  apply (read_tasks_do_not_interfere ex_self 2 [ex_task0; ex_task1] ex_task0
           ex_task1 ex_state1 eq_refl eq_refl H0 H1 eq_refl).
Defined.

(** X8: a failure of the first storage call of a read unit reaches the
    consumer as it is, whatever the retry policy says about its message:
    nothing is slept, nothing is scanned and the options mapping is not
    written; only the failed call is consumed. *)
Theorem run_read_task_first_failure (self : LanceDatasource) (P : Z)
    (tasks : list ReadTask) (t : ReadTask) σ (e : PyExc)
    (fs : list (option PyExc)) :
  0 < max_attempts (_retry_params self) ->
  get_read_tasks self P = Ok tasks ->
  t ∈ tasks ->
  faults σ = Some e :: fs ->
  run_read_task t σ = (Err e, set_faults fs σ).
Proof.
  intros Hp Ht Hin Hf.
  destruct (tasks_share_closure self P tasks t Ht Hin) as (Hne & _ & _ & Hr).
  unfold run_read_task, bind.
  rewrite call_read_fn_lazy by (rewrite Hr; exact Hp).
  cbn [drain_gen]. unfold bind, open_reader, bind.
  unfold task_ids in Hne.
  destruct (cl_fragment_ids (read_fn t)) as [|id ids]; [congruence|].
  cbn [resolve_fragments]. unfold bind, storage_call. rewrite Hf.
  reflexivity.
Qed.

Lemma run_read_task_first_failure_witness :
  (0 < max_attempts (_retry_params ex_self) /\
   get_read_tasks ex_self 2 = Ok [ex_task0; ex_task1] /\
   ex_task0 ∈ [ex_task0; ex_task1] /\
   faults (set_faults [Some ex_io_error; None] ex_state1)
     = Some ex_io_error :: [None]) /\
  run_read_task ex_task0 (set_faults [Some ex_io_error; None] ex_state1)
  = (Err ex_io_error,
     set_faults [None] (set_faults [Some ex_io_error; None] ex_state1)).
Proof.
  split; [repeat split; try reflexivity; apply list_elem_of_here|].
  apply (run_read_task_first_failure ex_self 2 [ex_task0; ex_task1] ex_task0
           (set_faults [Some ex_io_error; None] ex_state1) ex_io_error [None]
           eq_refl eq_refl (list_elem_of_here _ _) eq_refl).
Defined.

Lemma drain_reader_frame reader : forall σ,
  exists fs, (drain_reader reader σ).2 = set_faults fs σ.
Proof.
  induction reader as [|b reader IH]; intros σ; cbn [drain_reader];
    unfold bind at 1;
    destruct (storage_call_frame σ) as (fs & [Hs | (e & Hs)]); rewrite Hs;
    try (exists fs; reflexivity).
  unfold bind. destruct (IH (set_faults fs σ)) as (fs' & H).
  exists fs'.
  destruct (drain_reader reader (set_faults fs σ)) as [[ts|e] σ'];
    cbn [snd] in *; rewrite H; reflexivity.
Qed.

(** X9: whatever the storage layer does and whatever the retry policy is,
    running a read unit makes a single attempt: it never sleeps for a backoff
    and it builds at most one scanner. *)
Theorem run_read_task_single_attempt (t : ReadTask) σ :
  0 < max_attempts (cl_retry_params (read_fn t)) ->
  sleeps (run_read_task t σ).2 = sleeps σ /\
  (scans (run_read_task t σ).2 = scans σ \/
   exists kw, scans (run_read_task t σ).2 = scans σ ++ [kw]).
Proof.
  intros Hp. split; [apply run_read_task_never_sleeps, Hp|].
  unfold run_read_task, bind. rewrite call_read_fn_lazy by exact Hp.
  cbn [drain_gen]. unfold bind.
  destruct (open_reader_cases (cl_fragment_ids (read_fn t))
              (cl_lance_ds (read_fn t)) (cl_scanner_options (read_fn t)) σ)
    as (fs & [(e & H) | [(e & H) | H]]); rewrite H; auto.
  match goal with |- context [drain_reader ?r ?s] =>
    destruct (drain_reader_frame r s) as (fs' & Hd); rewrite Hd end.
  right. eexists. reflexivity.
Qed.

Lemma run_read_task_single_attempt_witness :
  0 < max_attempts (cl_retry_params (read_fn ex_task0)) /\
  sleeps (run_read_task ex_task0
            (set_faults [None; None; None; Some ex_io_error] ex_state1)).2 = [].
Proof.
  split; [reflexivity|].
  apply (run_read_task_single_attempt ex_task0
           (set_faults [None; None; None; Some ex_io_error] ex_state1) eq_refl).
Defined.

(** ** The constructor's failures and allocations *)

(** X10: the constructor fails in exactly two ways.  When [lance] cannot be
    imported it raises [ImportError] and has changed nothing; when
    [lance.dataset] raises, that error comes out as it is.  In every other
    case it returns a factory over the opened dataset. *)
Theorem init_outcomes env (u : string) columns filter sto so σ :
  match __init__ env u columns filter sto so σ with
  | (Ok self, _) =>
      lance_installed env = true /\
      lance_dataset env u sto = Ok (lance_ds self) /\
      uri self = u /\
      storage_options self = sto
  | (Err e, σ') =>
      (lance_installed env = false /\ σ' = σ /\ exists msg, e = ImportError msg)
      \/ (lance_installed env = true /\ lance_dataset env u sto = Err e)
  end.
Proof.
  destruct (lance_installed env) eqn:Hi.
  - destruct (scanner_options_or_new_cases so σ) as [(l & _ & _ & H)|[_ H]];
      rewrite (init_run _ _ _ _ _ _ _ _ _ Hi H);
      destruct (lance_dataset env u sto); cbn; auto.
  - unfold __init__, _check_import. rewrite Hi. cbn. left. eauto.
Qed.

(** X11: the constructor writes [columns] and [filter] into the caller's
    mapping before it opens the dataset, so when the open fails the error
    comes out and the caller's mapping has been changed all the same. *)
Theorem init_open_failure_keeps_writes env (u : string) columns filter sto
    (l : loc) σ (d : gmap string PyVal) (e : PyExc) :
  lance_installed env = true ->
  lance_dataset env u sto = Err e ->
  heap σ !! l = Some d ->
  d <> ∅ ->
  exists σ',
    __init__ env u columns filter sto (Some l) σ = (Err e, σ') /\
    (forall c, columns = Some c ->
       deref l σ' !! "columns" = Some (VStrList c)) /\
    (forall f, filter = Some f -> deref l σ' !! "filter" = Some (VStr f)) /\
    (forall k, k <> "columns" -> k <> "filter" -> deref l σ' !! k = d !! k).
Proof.
  intros Hi He Hl Hd.
  assert (Hderef : deref l σ = d) by (unfold deref; rewrite Hl; reflexivity).
  assert (Hso : scanner_options_or_new (Some l) σ = (Ok l, σ)).
  { destruct (scanner_options_or_new_cases (Some l) σ)
      as [(l' & [= <-] & _ & H) | [Hempty _]]; [exact H|].
    rewrite Hderef in Hempty. contradiction. }
  eexists. split.
  - rewrite (init_run _ _ _ _ _ _ _ _ _ Hi Hso), He. reflexivity.
  - rewrite deref_store_options, Hderef.
    destruct (merge_options_lookup columns filter d) as (H1 & H2 & _ & _ & H5).
    auto.
Qed.

Lemma init_open_failure_keeps_writes_witness :
  (lance_installed (mkEnv true (fun _ _ => Err (OSError "Dataset not found")))
     = true /\
   lance_dataset (mkEnv true (fun _ _ => Err (OSError "Dataset not found")))
     "s3://bucket/none" None = Err (OSError "Dataset not found") /\
   heap ex_state1 !! 1%positive = Some {[ "columns" := VStrList ["id"] ]} /\
   ({[ "columns" := VStrList ["id"] ]} : gmap string PyVal) <> ∅) /\
  exists σ',
    __init__ (mkEnv true (fun _ _ => Err (OSError "Dataset not found")))
      "s3://bucket/none" None (Some "id > 3") None (Some 1%positive) ex_state1
    = (Err (OSError "Dataset not found"), σ') /\
    deref 1%positive σ' !! "filter" = Some (VStr "id > 3").
Proof.
  assert (Hne : ({[ "columns" := VStrList ["id"] ]} : gmap string PyVal) <> ∅).
  { intros E. apply (f_equal (fun m => m !! "columns")) in E.
    vm_compute in E. discriminate E. }
  split; [repeat split; try reflexivity; exact Hne|].
  destruct (init_open_failure_keeps_writes
              (mkEnv true (fun _ _ => Err (OSError "Dataset not found")))
              "s3://bucket/none" None (Some "id > 3") None 1%positive ex_state1
              {[ "columns" := VStrList ["id"] ]} (OSError "Dataset not found")
              eq_refl eq_refl eq_refl Hne) as (σ' & H & _ & Hf & _).
  exists σ'. split; [exact H|]. apply Hf. reflexivity.
Defined.

(** What the constructor allocates when it is given no usable mapping. *)
Lemma init_new_dict env (u : string) columns filter sto so σ self σ1 :
  (so = None \/ exists l, so = Some l /\ heap σ !! l = Some ∅) ->
  __init__ env u columns filter sto so σ = (Ok self, σ1) ->
  (scanner_options self ∉ dom (heap σ)) /\
  (scanner_options self ∈ dom (heap σ1)) /\
  (forall l', l' <> scanner_options self -> heap σ1 !! l' = heap σ !! l') /\
  deref (scanner_options self) σ1 = merge_options columns filter ∅.
Proof.
  intros Hso Hinit.
  apply init_inv in Hinit as (σ0 & Hnew & Hσ1 & _ & _). subst σ1.
  destruct (scanner_options_or_new_cases so σ)
    as [(l & -> & Hsz & _) | [_ H]].
  { exfalso. destruct Hso as [[=] | (l' & [= <-] & Hl)].
    apply Hsz. unfold deref. rewrite Hl. cbn [default].
    apply map_size_empty_iff. reflexivity. }
  rewrite H in Hnew. injection Hnew as Hl <-.
  set (l := scanner_options self) in *.
  assert (Hfresh : l ∉ dom (heap σ)) by (rewrite <- Hl; apply is_fresh).
  split; [exact Hfresh|]. split; [|split].
  - apply elem_of_dom. unfold store_options.
    destruct columns, filter; cbn [heap set_heap];
      rewrite ?Hl, lookup_insert_eq; eauto.
  - intros l' Hne. rewrite heap_store_options_ne by exact Hne.
    cbn [heap set_heap]. rewrite Hl. apply lookup_insert_ne. congruence.
  - rewrite deref_store_options. rewrite Hl, deref_set_heap_insert.
    reflexivity.
Qed.

(** X12: without a mapping from the caller, or with an empty one, the
    factory's options are a newly created dict: an object that did not exist
    before, holding only the given [columns] and [filter]; every object that
    existed before, the caller's empty dict included, is left as it was. *)
Theorem init_fresh_options env (u : string) columns filter sto so σ self σ1 :
  (so = None \/ exists l, so = Some l /\ heap σ !! l = Some ∅) ->
  __init__ env u columns filter sto so σ = (Ok self, σ1) ->
  (scanner_options self ∉ dom (heap σ)) /\
  (forall l', l' ∈ dom (heap σ) -> heap σ1 !! l' = heap σ !! l') /\
  deref (scanner_options self) σ1 !! "columns" = VStrList <$> columns /\
  deref (scanner_options self) σ1 !! "filter" = VStr <$> filter /\
  (forall k, k <> "columns" -> k <> "filter" ->
     deref (scanner_options self) σ1 !! k = None).
Proof.
  intros Hso Hinit.
  destruct (init_new_dict _ _ _ _ _ _ _ _ _ Hso Hinit) as (Hf & _ & Hfr & Hd).
  split; [exact Hf|]. split.
  - intros l' Hl'. apply Hfr. intros ->. contradiction.
  - rewrite Hd.
    destruct (merge_options_lookup columns filter ∅)
      as (H1 & H2 & H3 & H4 & H5).
    split; [|split].
    + destruct columns as [c|]; [apply H1; reflexivity|].
      rewrite H3 by reflexivity. apply lookup_empty.
    + destruct filter as [f|]; [apply H2; reflexivity|].
      rewrite H4 by reflexivity. apply lookup_empty.
    + intros k Hk1 Hk2. rewrite H5 by assumption. apply lookup_empty.
Qed.

Lemma init_fresh_options_witness :
  ((Some 5%positive = None \/
    exists l, Some 5%positive = Some l /\ heap ex_state_caller !! l = Some ∅) /\
   exists self σ1,
     __init__ ex_env "s3://bucket/ds.lance" (Some ["id"]) None None
       (Some 5%positive) ex_state_caller = (Ok self, σ1) /\
     heap σ1 !! 5%positive = heap ex_state_caller !! 5%positive).
Proof.
  assert (Hso : Some 5%positive = None \/
    exists l, Some 5%positive = Some l /\ heap ex_state_caller !! l = Some ∅).
  { right. exists 5%positive. split; reflexivity. }
  split; [exact Hso|].
  destruct (__init__ ex_env "s3://bucket/ds.lance" (Some ["id"]) None None
              (Some 5%positive) ex_state_caller) as [[self|e] σ1] eqn:E;
    [|vm_compute in E; discriminate E].
  exists self, σ1. split; [reflexivity|].
  apply (init_fresh_options ex_env "s3://bucket/ds.lance" (Some ["id"]) None
           None (Some 5%positive) ex_state_caller self σ1 Hso E).
  vm_compute. reflexivity.
Defined.

(** X13: two factories built without a mapping from the caller never share
    their options: the second construction creates another dict and leaves
    the first factory's options untouched. *)
Theorem init_twice_distinct_options env1 env2 (u1 u2 : string) c1 f1 c2 f2
    sto1 sto2 σ self1 σ1 self2 σ2 :
  __init__ env1 u1 c1 f1 sto1 None σ = (Ok self1, σ1) ->
  __init__ env2 u2 c2 f2 sto2 None σ1 = (Ok self2, σ2) ->
  scanner_options self1 <> scanner_options self2 /\
  deref (scanner_options self1) σ2 = deref (scanner_options self1) σ1.
Proof.
  intros H1 H2.
  destruct (init_new_dict _ _ _ _ _ _ _ _ _ (or_introl eq_refl) H1)
    as (_ & Hin1 & _ & _).
  destruct (init_new_dict _ _ _ _ _ _ _ _ _ (or_introl eq_refl) H2)
    as (Hf2 & _ & Hfr2 & _).
  assert (Hne : scanner_options self1 <> scanner_options self2)
    by (intros E; rewrite E in Hin1; contradiction).
  split; [exact Hne|]. unfold deref. rewrite Hfr2 by exact Hne. reflexivity.
Qed.

Lemma init_twice_distinct_options_witness :
  __init__ ex_env "s3://bucket/ds.lance" (Some ["id"]) None None None ex_state
    = (Ok ex_self, ex_state1) /\
  exists self2 σ2,
    __init__ ex_env "s3://bucket/other" None (Some "id > 3") None None ex_state1
      = (Ok self2, σ2) /\
    scanner_options ex_self <> scanner_options self2.
Proof.
  split; [reflexivity|].
  destruct (__init__ ex_env "s3://bucket/other" None (Some "id > 3") None None
              ex_state1) as [[self2|e] σ2] eqn:E;
    [|vm_compute in E; discriminate E].
  exists self2, σ2. split; [reflexivity|].
  apply (init_twice_distinct_options ex_env ex_env "s3://bucket/ds.lance"
           "s3://bucket/other" (Some ["id"]) None None (Some "id > 3") None
           None ex_state ex_self ex_state1 self2 σ2 eq_refl E).
Defined.

Lemma resolve_fragments_prefix lance_ds fragment_ids : forall σ rest,
  faults σ = replicate (length fragment_ids) None ++ rest ->
  resolve_fragments lance_ds fragment_ids σ
  = (Ok (List.map (get_fragment lance_ds) fragment_ids), set_faults rest σ).
Proof.
  induction fragment_ids as [|id ids IH]; intros σ rest Hf;
    cbn [resolve_fragments].
  - cbn in Hf. rewrite <- Hf, set_faults_id. reflexivity.
  - cbn in Hf. unfold bind, storage_call. rewrite Hf.
    rewrite (IH (set_faults (replicate (length ids) None ++ rest) σ) rest)
      by reflexivity.
    reflexivity.
Qed.

(** X14: when the fragments resolve and building the scanner then fails, the
    error reaches the consumer and the shared options mapping already holds
    the unit's fragments under ["fragments"]: the write is not undone. *)
Theorem run_read_task_scanner_failure (self : LanceDatasource) (P : Z)
    (tasks : list ReadTask) (t : ReadTask) σ (e : PyExc)
    (fs : list (option PyExc)) :
  0 < max_attempts (_retry_params self) ->
  get_read_tasks self P = Ok tasks ->
  t ∈ tasks ->
  faults σ = replicate (length (task_ids t)) None ++ Some e :: fs ->
  (run_read_task t σ).1 = Err e /\
  deref (scanner_options self) (run_read_task t σ).2 !! "fragments"
    = Some (VFragments
              (List.map (get_fragment (lance_ds self)) (task_ids t))) /\
  scans (run_read_task t σ).2 = scans σ /\
  sleeps (run_read_task t σ).2 = sleeps σ.
Proof.
  intros Hp Ht Hin Hf.
  destruct (tasks_share_closure self P tasks t Ht Hin) as (_ & Hds & Hl & Hr).
  assert (Hrun : run_read_task t σ
    = (Err e,
       set_faults fs
         (set_heap (<[scanner_options self :=
                       scan_kwargs (lance_ds self) (task_ids t)
                         (deref (scanner_options self) σ)]> (heap σ)) σ))).
  { unfold run_read_task, bind.
    rewrite call_read_fn_lazy by (rewrite Hr; exact Hp).
    cbn [drain_gen]. unfold bind, open_reader, bind, dict_setitem.
    rewrite (resolve_fragments_prefix _ _ _ _ Hf).
    unfold storage_call at 1. cbn [faults set_heap set_faults].
    rewrite Hds, Hl. reflexivity. }
  rewrite Hrun. cbn [fst snd]. repeat split.
  change (deref ?l (set_faults ?f ?s)) with (deref l s).
  rewrite deref_set_heap_insert. apply lookup_insert_eq.
Qed.

Lemma run_read_task_scanner_failure_witness :
  (0 < max_attempts (_retry_params ex_self) /\
   get_read_tasks ex_self 2 = Ok [ex_task0; ex_task1] /\
   ex_task0 ∈ [ex_task0; ex_task1] /\
   faults (set_faults [None; None; Some ex_io_error] ex_state1)
     = replicate (length (task_ids ex_task0)) None ++ Some ex_io_error :: []) /\
  (run_read_task ex_task0
     (set_faults [None; None; Some ex_io_error] ex_state1)).1
  = Err ex_io_error.
Proof.
  split; [repeat split; try reflexivity; apply list_elem_of_here|].
  apply (run_read_task_scanner_failure ex_self 2 [ex_task0; ex_task1] ex_task0
           (set_faults [None; None; Some ex_io_error] ex_state1) ex_io_error []
           eq_refl eq_refl (list_elem_of_here _ _) eq_refl).
Defined.
